(** * The one-vote game: live puzzle protocol, settlement and treatment

    A shallow embedding of [one_vote_game/__init__.py].

    Conventions of the embedding:
    - Python integers are [Z]; rates, probabilities and [time.time()] stamps
      are rationals [Q], a float being read at its decimal value;
    - a currency amount is a rational that the framework's [Currency] type
      can hold, a decimal with a fixed number of places: a product or a
      quotient with a Currency operand is rounded to that many places, sums
      and differences of amounts are exact;
    - a nullable model field that the code writes is an [option]; using an
      unset field in arithmetic raises [TypeError], as Python does on [None];
    - exceptions and mutation follow Python: a computation is a function from
      the mutable state to an outcome and the state reached, so whatever was
      written before a [raise] stays written;
    - [random.choices] reads an explicit stream of [random()] samples. *)

From Stdlib Require Import ZArith QArith Qabs Qround String Lia Lqa.
From stdpp Require Import base option list gmap strings.

Local Open Scope Z_scope.

(** ** Exceptions and the state-and-exception monad *)

Inductive exn : Type :=
| RuntimeError (msg : string)
| ValueError (msg : string)
| TypeError (what : string)
| KeyError (key : string)
| AttributeError (what : string).

Definition M (St A : Type) : Type := St -> (exn + A) * St.

Global Instance M_ret {St} : MRet (M St) :=
  fun A (a : A) s => (inr a, s).

Global Instance M_bind {St} : MBind (M St) :=
  fun A B (k : A -> M St B) (m : M St A) s =>
    match m s with
    | (inl e, s') => (inl e, s')
    | (inr a, s') => k a s'
    end.

Definition raise {St A} (e : exn) : M St A := fun s => (inl e, s).
Definition get {St} : M St St := fun s => (inr s, s).
Definition put {St} (s : St) : M St unit := fun _ => (inr tt, s).

(** Reading a model field for arithmetic: [None] is a [TypeError]. *)
Definition field {St A} (name : string) (v : option A) : M St A :=
  match v with
  | Some a => mret a
  | None => raise (TypeError name)
  end.

Fixpoint mapM {St A B} (f : A -> M St B) (l : list A) : M St (list B) :=
  match l with
  | [] => mret []
  | a :: l' => b ← f a; bs ← mapM f l'; mret (b :: bs)
  end.

(** ** The random source *)

Record RandomState : Type := { tape : nat -> Q; pos : nat }.

Definition random : M RandomState Q :=
  fun r => (inr (tape r (pos r)), {| tape := tape r; pos := S (pos r) |}).

Fixpoint accumulate_from (total : Q) (ws : list Q) : list Q :=
  match ws with
  | [] => []
  | w :: ws' => (total + w)%Q :: accumulate_from (total + w)%Q ws'
  end.

Definition accumulate (ws : list Q) : list Q :=
  match ws with
  | [] => []
  | w :: ws' => w :: accumulate_from w ws'
  end.

Definition Qltb (x y : Q) : bool := negb (Qle_bool y x).

(** [bisect(a, x, 0, hi)] on non-decreasing [a]: the first index below [hi]
    whose entry exceeds [x], or [hi]. *)
Fixpoint bisect (a : list Q) (x : Q) (hi : nat) : nat :=
  match hi, a with
  | S hi', c :: a' => if Qltb x c then O else S (bisect a' x hi')
  | _, _ => O
  end.

(** [random.choices(population, weights=weights, k=1)]. *)
Definition choices (population : list Z) (weights : list Q) : M RandomState (list Z) :=
  let cum_weights := accumulate weights in
  if negb (length cum_weights =? length population)%nat
  then raise (ValueError "The number of weights does not match the population")
  else
    total ← field "cum_weights[-1]" (last cum_weights);
    if Qle_bool total 0
    then raise (ValueError "Total of weights must be greater than zero")
    else
      u ← random;
      x ← field "population[i]"
            (population !! bisect cum_weights (u * total)%Q (length population - 1)%nat);
      mret [x].

(** ** The data model *)

Module Constants.
Definition players_per_group : Z := 3.
Definition vote_round : Z := 2.
Definition num_rounds : Z := 2 * vote_round - 1.

(** The float constants, at their decimal values; [1 / 0.4] is 2.5 and
    [2.5 * 0.4] is 1.0 in binary floating point as well. *)
Definition tax_rate : Q := 0.4.
Definition redistribution_multiplier : Q := 0.5.
Definition penalty_multiplier : Q := 1 / tax_rate.
Definition default_audit_prob : Q := 0.2.
Definition modified_audit_prob : Q := 0.5.
Definition real_effort_multiplier : Z := 100.
End Constants.

Module Group.
Record t : Type := {
  total_tax_paid : option Q;
  individual_share : option Q;
  treatment : option string;
  total_if_vote : option Z;
  if_override : option bool;
  audit_weight : option Q
}.

Definition empty : t :=
  {| total_tax_paid := None; individual_share := None; treatment := None;
     total_if_vote := None; if_override := None; audit_weight := None |}.

Definition set_total_tax_paid (v : Q) (g : t) : t :=
  {| total_tax_paid := Some v; individual_share := individual_share g;
     treatment := treatment g; total_if_vote := total_if_vote g;
     if_override := if_override g; audit_weight := audit_weight g |}.
Definition set_individual_share (v : Q) (g : t) : t :=
  {| total_tax_paid := total_tax_paid g; individual_share := Some v;
     treatment := treatment g; total_if_vote := total_if_vote g;
     if_override := if_override g; audit_weight := audit_weight g |}.
Definition set_treatment (v : option string) (g : t) : t :=
  {| total_tax_paid := total_tax_paid g; individual_share := individual_share g;
     treatment := v; total_if_vote := total_if_vote g;
     if_override := if_override g; audit_weight := audit_weight g |}.
Definition set_total_if_vote (v : Z) (g : t) : t :=
  {| total_tax_paid := total_tax_paid g; individual_share := individual_share g;
     treatment := treatment g; total_if_vote := Some v;
     if_override := if_override g; audit_weight := audit_weight g |}.
Definition set_if_override (v : bool) (g : t) : t :=
  {| total_tax_paid := total_tax_paid g; individual_share := individual_share g;
     treatment := treatment g; total_if_vote := total_if_vote g;
     if_override := Some v; audit_weight := audit_weight g |}.
Definition set_audit_weight (v : Q) (g : t) : t :=
  {| total_tax_paid := total_tax_paid g; individual_share := individual_share g;
     treatment := treatment g; total_if_vote := total_if_vote g;
     if_override := if_override g; audit_weight := Some v |}.
End Group.

Module Player.
Record t : Type := {
  id : nat;
  id_in_group : nat;
  iteration : Z;
  num_trials : Z;
  num_correct : Z;
  num_failed : Z;
  real_effort_income : option Q;
  reported_income : option Q;
  tax_paid : option Q;
  if_audited : option Z;
  if_vote : option bool;
  payoff : Q
}.

(** A player as the framework creates it at the start of a round. *)
Definition fresh (id id_in_group : nat) : t :=
  {| id := id; id_in_group := id_in_group;
     iteration := 0; num_trials := 0; num_correct := 0; num_failed := 0;
     real_effort_income := None; reported_income := None; tax_paid := None;
     if_audited := None; if_vote := None; payoff := 0%Q |}.

Definition set_iteration (v : Z) (p : t) : t :=
  {| id := id p; id_in_group := id_in_group p; iteration := v;
     num_trials := num_trials p; num_correct := num_correct p;
     num_failed := num_failed p; real_effort_income := real_effort_income p;
     reported_income := reported_income p; tax_paid := tax_paid p;
     if_audited := if_audited p; if_vote := if_vote p; payoff := payoff p |}.
Definition set_num_trials (v : Z) (p : t) : t :=
  {| id := id p; id_in_group := id_in_group p; iteration := iteration p;
     num_trials := v; num_correct := num_correct p;
     num_failed := num_failed p; real_effort_income := real_effort_income p;
     reported_income := reported_income p; tax_paid := tax_paid p;
     if_audited := if_audited p; if_vote := if_vote p; payoff := payoff p |}.
Definition set_num_correct (v : Z) (p : t) : t :=
  {| id := id p; id_in_group := id_in_group p; iteration := iteration p;
     num_trials := num_trials p; num_correct := v;
     num_failed := num_failed p; real_effort_income := real_effort_income p;
     reported_income := reported_income p; tax_paid := tax_paid p;
     if_audited := if_audited p; if_vote := if_vote p; payoff := payoff p |}.
Definition set_num_failed (v : Z) (p : t) : t :=
  {| id := id p; id_in_group := id_in_group p; iteration := iteration p;
     num_trials := num_trials p; num_correct := num_correct p;
     num_failed := v; real_effort_income := real_effort_income p;
     reported_income := reported_income p; tax_paid := tax_paid p;
     if_audited := if_audited p; if_vote := if_vote p; payoff := payoff p |}.
Definition set_real_effort_income (v : Q) (p : t) : t :=
  {| id := id p; id_in_group := id_in_group p; iteration := iteration p;
     num_trials := num_trials p; num_correct := num_correct p;
     num_failed := num_failed p; real_effort_income := Some v;
     reported_income := reported_income p; tax_paid := tax_paid p;
     if_audited := if_audited p; if_vote := if_vote p; payoff := payoff p |}.
Definition set_reported_income (v : Q) (p : t) : t :=
  {| id := id p; id_in_group := id_in_group p; iteration := iteration p;
     num_trials := num_trials p; num_correct := num_correct p;
     num_failed := num_failed p; real_effort_income := real_effort_income p;
     reported_income := Some v; tax_paid := tax_paid p;
     if_audited := if_audited p; if_vote := if_vote p; payoff := payoff p |}.
Definition set_tax_paid (v : Q) (p : t) : t :=
  {| id := id p; id_in_group := id_in_group p; iteration := iteration p;
     num_trials := num_trials p; num_correct := num_correct p;
     num_failed := num_failed p; real_effort_income := real_effort_income p;
     reported_income := reported_income p; tax_paid := Some v;
     if_audited := if_audited p; if_vote := if_vote p; payoff := payoff p |}.
Definition set_if_audited (v : Z) (p : t) : t :=
  {| id := id p; id_in_group := id_in_group p; iteration := iteration p;
     num_trials := num_trials p; num_correct := num_correct p;
     num_failed := num_failed p; real_effort_income := real_effort_income p;
     reported_income := reported_income p; tax_paid := tax_paid p;
     if_audited := Some v; if_vote := if_vote p; payoff := payoff p |}.
Definition set_if_vote (v : bool) (p : t) : t :=
  {| id := id p; id_in_group := id_in_group p; iteration := iteration p;
     num_trials := num_trials p; num_correct := num_correct p;
     num_failed := num_failed p; real_effort_income := real_effort_income p;
     reported_income := reported_income p; tax_paid := tax_paid p;
     if_audited := if_audited p; if_vote := Some v; payoff := payoff p |}.
Definition set_payoff (v : Q) (p : t) : t :=
  {| id := id p; id_in_group := id_in_group p; iteration := iteration p;
     num_trials := num_trials p; num_correct := num_correct p;
     num_failed := num_failed p; real_effort_income := real_effort_income p;
     reported_income := reported_income p; tax_paid := tax_paid p;
     if_audited := if_audited p; if_vote := if_vote p; payoff := v |}.
End Player.

(** ** Currency amounts

    The fields declared [CurrencyField] (lines 67-68, 82-86) hold values of
    the framework's [Currency] type, which is not part of this repository: a
    decimal amount with a fixed number of places.  An arithmetic operator
    with a Currency operand returns a Currency again, that is, its exact
    result rounded to that number of places.  The number of places comes
    from the settings of the project and the rounding from the framework, so
    both are parameters here; of the rounding only this much is used: it
    maps a number to a whole number at most one half away. *)
Class CurrencyType : Type := {
  decimal_places : nat;
  nearest : Q -> Z;
  nearest_close : forall x : Q, (Qabs (inject_Z (nearest x) - x) <= 1 # 2)%Q
}.

(** The number of smallest units in one unit of the currency. *)
Definition scale {currency : CurrencyType} : Q :=
  inject_Z (10 ^ Z.of_nat decimal_places).

(** [Currency(amount)]: the amount rounded to the places of the currency. *)
Definition Currency {currency : CurrencyType} (amount : Q) : Q :=
  (inject_Z (nearest (amount * scale)) / scale)%Q.

(** ** Settlement: [set_payoffs] (lines 263-278) *)

(** Python's [sum]: a left fold from [0].  The sum of amounts of the currency
    is an amount of the currency, so no rounding takes place. *)
Definition sum (l : list Q) : Q := fold_left Qplus l 0%Q.

(** First loop of [set_payoffs] (lines 267-270): tax and the audit draw of
    one player.  The tax is a Currency times a float. *)
Definition tax_and_audit {currency : CurrencyType} (group : Group.t) (p : Player.t)
  : M RandomState Player.t :=
  reported ← field "reported_income" (Player.reported_income p);
  let p := Player.set_tax_paid (Currency (reported * Constants.tax_rate)) p in
  audit_weight ← field "audit_weight" (Group.audit_weight group);
  indice ← choices [1; 0] [audit_weight; (1 - audit_weight)%Q];
  i0 ← field "indice[0]" (indice !! 0%nat);
  mret (Player.set_if_audited i0 p).

(** Second loop of [set_payoffs] (lines 274-278): the payoff of one player.
    Differences and sums of amounts are exact, and so is the product of an
    amount with [penalty_multiplier * tax_rate], which is 1. *)
Definition pay (group : Group.t) (p : Player.t) : M RandomState Player.t :=
  if bool_decide (Player.if_audited p = Some 1) then
    real ← field "real_effort_income" (Player.real_effort_income p);
    tax ← field "tax_paid" (Player.tax_paid p);
    share ← field "individual_share" (Group.individual_share group);
    reported ← field "reported_income" (Player.reported_income p);
    mret (Player.set_payoff
            (real - tax + share
             - Constants.penalty_multiplier * Constants.tax_rate * (real - reported))%Q p)
  else
    real ← field "real_effort_income" (Player.real_effort_income p);
    tax ← field "tax_paid" (Player.tax_paid p);
    share ← field "individual_share" (Group.individual_share group);
    mret (Player.set_payoff (real - tax + share)%Q p).

(** The share (line 273) is a Currency times a float, which is a Currency,
    divided by an integer, which is a Currency again. *)
Definition set_payoffs {currency : CurrencyType} (group : Group.t)
    (players : list Player.t)
  : M RandomState (Group.t * list Player.t) :=
  players ← mapM (tax_and_audit group) players;
  group_tax_paid ← mapM (fun p => field "tax_paid" (Player.tax_paid p)) players;
  let group := Group.set_total_tax_paid (sum group_tax_paid) group in
  total ← field "total_tax_paid" (Group.total_tax_paid group);
  let group :=
    Group.set_individual_share
      (Currency (Currency (total * Constants.redistribution_multiplier)
                 / inject_Z Constants.players_per_group)) group in
  players ← mapM (pay group) players;
  mret (group, players).


(** ** Voting: [assign_treatment] (lines 281-298) *)

Definition Z_of_bool (b : bool) : Z := if b then 1 else 0.

(** Python's [sum] on a list of booleans, which count as [1] and [0]. *)
Definition sum_bool (l : list bool) : Z :=
  fold_left (fun acc b => acc + Z_of_bool b) l 0.

Definition assign_treatment (group : Group.t) (players : list Player.t)
  : M RandomState Group.t :=
  group_if_vote ← mapM (fun p => field "if_vote" (Player.if_vote p)) players;
  let group := Group.set_total_if_vote (sum_bool group_if_vote) group in
  total ← field "total_if_vote" (Group.total_if_vote group);
  let group :=
    if Qltb (inject_Z Constants.players_per_group / 2)%Q (inject_Z total)
    then Group.set_treatment (Some "EndoYes") group
    else Group.set_treatment (Some "EndoNo") group in
  computer_control ← choices [1; 0] [1%Q; 1%Q];
  c0 ← field "computer_control[0]" (computer_control !! 0%nat);
  if (c0 =? 1) then
    let group := Group.set_if_override true group in
    dice ← choices [1; 0] [1%Q; 1%Q];
    d0 ← field "dice[0]" (dice !! 0%nat);
    if (d0 =? 1)
    then mret (Group.set_treatment (Some "ExoYes") group)
    else mret (Group.set_treatment (Some "ExoNo") group)
  else
    mret (Group.set_if_override false group).

(** ** Session parameters *)

Module Params.
Record t : Type := {
  retry_delay : Q;
  puzzle_delay : Q;
  attempts_per_puzzle : Z;
  max_iterations : option Z
}.

(** The [defaults] of [creating_session]. *)
Definition defaults : t :=
  {| retry_delay := 1.0; puzzle_delay := 1.0; attempts_per_puzzle := 1;
     max_iterations := None |}.
End Params.

(** Truth value of [params['max_iterations']]: [None] and [0] are false. *)
Definition truthy (v : option Z) : bool :=
  match v with
  | None => false
  | Some n => negb (n =? 0)
  end.

(** ** End of the puzzle page: [Game.before_next_page] (lines 319-332) *)

(** What the hook reaches from [player]: the player record, the round it
    belongs to, and its group in every round (for [in_round]). *)
Module Stage.
Record t : Type := {
  player : Player.t;
  round_number : Z;
  groups : gmap Z Group.t
}.

Definition set_player (v : Player.t) (s : t) : t :=
  {| player := v; round_number := round_number s; groups := groups s |}.
Definition set_groups (v : gmap Z Group.t) (s : t) : t :=
  {| player := player s; round_number := round_number s; groups := v |}.
End Stage.

Definition in_round (r : Z) : M Stage.t Group.t :=
  s ← get;
  match Stage.groups s !! r with
  | Some g => mret g
  | None => raise (ValueError "invalid round")
  end.

(** A write to a field of [player.group]. *)
Definition update_group (f : Group.t -> Group.t) : M Stage.t unit :=
  s ← get;
  g ← in_round (Stage.round_number s);
  put (Stage.set_groups (<[Stage.round_number s := f g]> (Stage.groups s)) s).

Definition update_player (f : Player.t -> Player.t) : M Stage.t unit :=
  s ← get;
  put (Stage.set_player (f (Stage.player s)) s).

Definition before_next_page (params : Params.t) (timeout_happened : bool)
  : M Stage.t unit :=
  if negb timeout_happened && negb (truthy (Params.max_iterations params))
  then raise (RuntimeError "malicious page submission")
  else
    s ← get;
    update_player
      (Player.set_real_effort_income
         (inject_Z (Player.num_correct (Stage.player s)
                    * Constants.real_effort_multiplier)));;
    if (Stage.round_number s <? Constants.vote_round) then
      update_group (Group.set_audit_weight Constants.default_audit_prob)
    else
      voted ← in_round Constants.vote_round;
      update_group (Group.set_treatment (Group.treatment voted));;
      group ← in_round (Stage.round_number s);
      if bool_decide (Group.treatment group = Some "EndoYes")
         || bool_decide (Group.treatment group = Some "ExoYes")
      then update_group (Group.set_audit_weight Constants.modified_audit_prob)
      else update_group (Group.set_audit_weight Constants.default_audit_prob).

(** ** Puzzle records and the puzzle store *)

Module Puzzle.
Record t : Type := {
  player : nat;
  iteration : Z;
  attempts : Z;
  timestamp : Q;
  text : string;
  solution : string;
  response : option string;
  response_timestamp : option Q;
  is_correct : option bool
}.

Definition set_response (v : string) (z : t) : t :=
  {| player := player z; iteration := iteration z; attempts := attempts z;
     timestamp := timestamp z; text := text z; solution := solution z;
     response := Some v; response_timestamp := response_timestamp z;
     is_correct := is_correct z |}.
Definition set_is_correct (v : bool) (z : t) : t :=
  {| player := player z; iteration := iteration z; attempts := attempts z;
     timestamp := timestamp z; text := text z; solution := solution z;
     response := response z; response_timestamp := response_timestamp z;
     is_correct := Some v |}.
Definition set_response_timestamp (v : Q) (z : t) : t :=
  {| player := player z; iteration := iteration z; attempts := attempts z;
     timestamp := timestamp z; text := text z; solution := solution z;
     response := response z; response_timestamp := Some v;
     is_correct := is_correct z |}.
Definition set_attempts (v : Z) (z : t) : t :=
  {| player := player z; iteration := iteration z; attempts := v;
     timestamp := timestamp z; text := text z; solution := solution z;
     response := response z; response_timestamp := response_timestamp z;
     is_correct := is_correct z |}.

(** The rows of the store are addressed by their position; the store only
    grows, so a position names the same row for ever. *)
Definition matches (player_id : nat) (it : Z) (z : t) : bool :=
  (player z =? player_id)%nat && (iteration z =? it).

(** [Puzzle.filter(player=..., iteration=...)], rows paired with their
    position, counted from [i]. *)
Fixpoint filter_from (i : nat) (player_id : nat) (it : Z) (store : list t)
  : list (nat * t) :=
  match store with
  | [] => []
  | z :: store' =>
      if matches player_id it z
      then (i, z) :: filter_from (S i) player_id it store'
      else filter_from (S i) player_id it store'
  end.

Definition filter (player_id : nat) (it : Z) (store : list t) : list (nat * t) :=
  filter_from 0 player_id it store.
End Puzzle.

(** What a task module hands to [Puzzle.create]. *)
Record PuzzleFields : Type := { f_text : string; f_solution : string }.

(** The contract of a task module ([task_matrix], [task_transcription],
    [task_decoding]).  The modules are chosen by [get_task_module]; their
    code is not part of the sources at hand, so the handler is parametrised
    by the three functions it calls. *)
Class TaskModule : Type := {
  generate_puzzle_fields : RandomState -> PuzzleFields * RandomState;
  is_correct : string -> Puzzle.t -> bool;
  render_image : Puzzle.t -> string
}.

(** The clock behind [time.time()]: a stream of readings. *)
Record Clock : Type := { ticks : nat -> Q; reads : nat }.

(** Everything [play_game] reads and writes. *)
Module World.
Record t : Type := {
  player : Player.t;
  puzzles : list Puzzle.t;
  rng : RandomState;
  clock : Clock
}.

Definition set_player (v : Player.t) (w : t) : t :=
  {| player := v; puzzles := puzzles w; rng := rng w; clock := clock w |}.
Definition set_puzzles (v : list Puzzle.t) (w : t) : t :=
  {| player := player w; puzzles := v; rng := rng w; clock := clock w |}.
Definition set_rng (v : RandomState) (w : t) : t :=
  {| player := player w; puzzles := puzzles w; rng := v; clock := clock w |}.
Definition set_clock (v : Clock) (w : t) : t :=
  {| player := player w; puzzles := puzzles w; rng := rng w; clock := v |}.
End World.

Definition time_time : M World.t Q :=
  fun w =>
    let c := World.clock w in
    (inr (ticks c (reads c)),
     World.set_clock {| ticks := ticks c; reads := S (reads c) |} w).

(** A draw from the random source by code that cannot raise. *)
Definition with_rng {A} (draw : RandomState -> A * RandomState) : M World.t A :=
  fun w =>
    match draw (World.rng w) with
    | (a, r) => (inr a, World.set_rng r w)
    end.

Definition the_player : M World.t Player.t :=
  fun w => (inr (World.player w), w).

Definition write_player (f : Player.t -> Player.t) : M World.t unit :=
  fun w => (inr tt, World.set_player (f (World.player w)) w).

(** [Puzzle.create]: a new row at the end of the store. *)
Definition Puzzle_create (z : Puzzle.t) : M World.t (nat * Puzzle.t) :=
  fun w =>
    (inr (length (World.puzzles w), z),
     World.set_puzzles (World.puzzles w ++ [z]) w).

(** Writes to the attributes of a row that was read from the store. *)
Definition write_puzzle (i : nat) (z : Puzzle.t) : M World.t unit :=
  fun w => (inr tt, World.set_puzzles (<[i := z]> (World.puzzles w)) w).

(** ** Messages and responses of the live protocol *)

(** The value under the key ["answer"] of a message. *)
Inductive json : Type :=
| JNull
| JString (s : string).

Module Message.
Record t : Type := { type : string; answer : option json }.
End Message.

Record Progress : Type := {
  p_num_trials : Z;
  p_num_correct : Z;
  p_num_incorrect : Z;
  p_iteration : Z
}.

Inductive Response : Type :=
| status (progress : Progress) (puzzle : option string) (iterations_left : option Z)
| puzzle (data : string) (progress : Progress)
| feedback (correct : bool) (retries_left : Z) (progress : Progress)
| solution (text : string).

(** ** The live protocol handler: [play_game] and its helpers (lines 110-260) *)

Section Live.
Context {task_module : TaskModule}.
Variable encode_image : string -> string.
Variable DEBUG : bool.
Variable params : Params.t.

Definition generate_puzzle : M World.t (nat * Puzzle.t) :=
  fields ← with_rng generate_puzzle_fields;
  write_player (fun p => Player.set_iteration (Player.iteration p + 1) p);;
  player ← the_player;
  created ← time_time;
  Puzzle_create
    {| Puzzle.player := Player.id player;
       Puzzle.iteration := Player.iteration player;
       Puzzle.attempts := 0;
       Puzzle.timestamp := created;
       Puzzle.text := f_text fields;
       Puzzle.solution := f_solution fields;
       Puzzle.response := None;
       Puzzle.response_timestamp := None;
       Puzzle.is_correct := None |}.

Definition get_current_puzzle : M World.t (option (nat * Puzzle.t)) :=
  player ← the_player;
  w ← get;
  match Puzzle.filter (Player.id player) (Player.iteration player) (World.puzzles w) with
  | [] => mret None
  | [z] => mret (Some z)
  | _ => raise (ValueError "too many values to unpack (expected 1)")
  end.

Definition encode_puzzle (z : Puzzle.t) : string :=
  encode_image (render_image z).

Definition get_progress : M World.t Progress :=
  player ← the_player;
  mret {| p_num_trials := Player.num_trials player;
          p_num_correct := Player.num_correct player;
          p_num_incorrect := Player.num_failed player;
          p_iteration := Player.iteration player |}.

(** The end of the branch [message_type == "next"] (lines 208-211): generate
    new puzzle. *)
Definition issue (my_id : nat) : M World.t (nat * Response) :=
  z ← generate_puzzle;
  p ← get_progress;
  mret (my_id, puzzle (encode_puzzle (snd z)) p).

(** The branch [message_type == "next"] (lines 196-211). *)
Definition on_next (my_id : nat) (now : Q) (current : option (nat * Puzzle.t))
  : M World.t (nat * Response) :=
  let issue := issue my_id in
  match current with
  | Some (_, current) =>
      if bool_decide (Puzzle.response current = None)
      then raise (RuntimeError "trying to skip over unsolved puzzle")
      else if Qltb now (Puzzle.timestamp current + Params.puzzle_delay params)%Q
      then raise (RuntimeError "retrying too fast")
      else if bool_decide (Some (Puzzle.iteration current) = Params.max_iterations params)
      then p ← get_progress; mret (my_id, status p None (Some 0))
      else issue
  | None => issue
  end.

(** The retry part of the branch [message_type == "answer"] (lines 218-229):
    the guards and the reversal of the last update of the player's progress. *)
Definition undo_last (now : Q) (current : Puzzle.t) : M World.t unit :=
  if bool_decide (Puzzle.response current = None) then mret tt
  else
    if (Params.attempts_per_puzzle params <=? Puzzle.attempts current)
    then raise (RuntimeError "no more attempts allowed")
    else
      answered ← field "response_timestamp" (Puzzle.response_timestamp current);
      if Qltb now (answered + Params.retry_delay params)%Q
      then raise (RuntimeError "retrying too fast")
      else
        write_player (fun p => Player.set_num_trials (Player.num_trials p - 1) p);;
        if bool_decide (Puzzle.is_correct current = Some true)
        then write_player (fun p => Player.set_num_correct (Player.num_correct p - 1) p)
        else write_player (fun p => Player.set_num_failed (Player.num_failed p - 1) p).

(** The branch [message_type == "answer"] (lines 214-258).  The writes to
    the attributes of [current] (lines 237-240) reach the store together:
    nothing can raise between them. *)
Definition on_answer (my_id : nat) (now : Q) (current : option (nat * Puzzle.t))
    (message : Message.t) : M World.t (nat * Response) :=
  match current with
  | None => raise (RuntimeError "trying to answer no puzzle")
  | Some (i, current) =>
      undo_last now current;;
      answer ← match Message.answer message with
               | Some a => mret a
               | None => raise (KeyError "answer")
               end;
      match answer with
      | JNull => raise (ValueError "bogus answer")
      | JString answer =>
          if String.eqb answer EmptyString
          then raise (ValueError "bogus answer")
          else
            let current := Puzzle.set_response answer current in
            let current := Puzzle.set_is_correct (is_correct answer current) current in
            let current := Puzzle.set_response_timestamp now current in
            let current := Puzzle.set_attempts (Puzzle.attempts current + 1) current in
            write_puzzle i current;;
            (if bool_decide (Puzzle.is_correct current = Some true)
             then write_player (fun p => Player.set_num_correct (Player.num_correct p + 1) p)
             else write_player (fun p => Player.set_num_failed (Player.num_failed p + 1) p));;
            write_player (fun p => Player.set_num_trials (Player.num_trials p + 1) p);;
            let retries_left := Params.attempts_per_puzzle params - Puzzle.attempts current in
            p ← get_progress;
            mret (my_id,
                  feedback (bool_decide (Puzzle.is_correct current = Some true))
                           retries_left p)
      end
  end.

Definition play_game (message : Message.t) : M World.t (nat * Response) :=
  player ← the_player;
  let my_id := Player.id_in_group player in
  now ← time_time;
  current ← get_current_puzzle;
  let message_type := Message.type message in
  if String.eqb message_type "load" then
    p ← get_progress;
    match current with
    | Some (_, current) => mret (my_id, status p (Some (encode_puzzle current)) None)
    | None => mret (my_id, status p None None)
    end
  else if String.eqb message_type "cheat" && DEBUG then
    match current with
    | Some (_, current) => mret (my_id, solution (Puzzle.solution current))
    | None => raise (AttributeError "solution")
    end
  else if String.eqb message_type "next" then on_next my_id now current
  else if String.eqb message_type "answer" then on_answer my_id now current message
  else raise (RuntimeError "unrecognized message from client").

(** The handler is invoked once per inbound message; an exception ends that
    invocation only. *)
Fixpoint run (messages : list Message.t) (w : World.t)
  : list (exn + nat * Response) * World.t :=
  match messages with
  | [] => ([], w)
  | m :: messages' =>
      let '(out, w') := play_game m w in
      let '(outs, w'') := run messages' w' in
      (out :: outs, w'')
  end.

End Live.

(** ** Session set-up: [creating_session] (lines 56-63) *)

(** The values a session configuration holds under the four parameters. *)
Inductive value : Type :=
| VNone
| VInt (n : Z)
| VFloat (x : Q)
| VStr (s : string).

(** The dictionary [defaults], in the order it is written. *)
Definition session_defaults : list (string * value) :=
  [("retry_delay", VFloat 1.0); ("puzzle_delay", VFloat 1.0);
   ("attempts_per_puzzle", VInt 1); ("max_iterations", VNone)].

(** [session.params] after [creating_session]: it starts empty, and every
    key of [defaults] gets [session.config.get(param, defaults[param])]. *)
Definition creating_session (config : gmap string value) : gmap string value :=
  foldl (fun params '(param, dflt) => <[param := default dflt (config !! param)]> params)
        ∅ session_defaults.

(** ** The pages and when they are shown (lines 301-373) *)

Inductive Page : Type :=
| Game
| Contribute
| ContributeWaitPage
| Vote
| VoteWaitPage
| Results.

(** [is_displayed] of each page; [Results] defines none and is always shown. *)
Definition is_displayed (page : Page) (round_number : Z) : bool :=
  match page with
  | Game | Contribute | ContributeWaitPage => negb (round_number =? Constants.vote_round)
  | Vote | VoteWaitPage => round_number =? Constants.vote_round
  | Results => true
  end.

Definition page_sequence : list Page :=
  [Game; Contribute; ContributeWaitPage; Vote; VoteWaitPage; Results].

(** The group-level functions that run when all players have arrived. *)
Inductive Barrier : Type :=
| run_set_payoffs
| run_assign_treatment.

Definition after_all_players_arrive (page : Page) : option Barrier :=
  match page with
  | ContributeWaitPage => Some run_set_payoffs
  | VoteWaitPage => Some run_assign_treatment
  | _ => None
  end.

(** ** Vocabulary of the statements *)

(** *** The random source *)

(** The sample the next [random()] call returns, and the source after it. *)
Definition next_sample (r : RandomState) : Q := tape r (pos r).

Definition advance (r : RandomState) : RandomState :=
  {| tape := tape r; pos := S (pos r) |}.

(** The element that [random.choices([1, 0], weights=[a, b])] picks when the
    next sample of the source is [u]. *)
Definition pick (a b u : Q) : Z :=
  if Qltb (u * (a + b))%Q a then 1 else 0.

(** *** Settlement *)

(** A player whose report and earned income are on record. *)
Definition ready (p : Player.t) : Prop :=
  is_Some (Player.reported_income p) /\ is_Some (Player.real_effort_income p).

(** The amounts the currency can hold: the whole multiples of its smallest
    unit. *)
Definition representable {currency : CurrencyType} (x : Q) : Prop :=
  exists n : Z, (x * scale == inject_Z n)%Q.

(** [y] is [x] rounded to the currency: an amount the currency can hold, at
    most half a smallest unit away from [x]. *)
Definition rounded {currency : CurrencyType} (x y : Q) : Prop :=
  representable y /\ (Qabs (y - x) * scale <= 1 # 2)%Q.

(** The tax on the report of a player. *)
Definition tax_due {currency : CurrencyType} (p : Player.t) : Q :=
  Currency (default 0%Q (Player.reported_income p) * Constants.tax_rate).

(** The record of a player after settlement with share [share]: [p'] is [p]
    with the tax on the report, an audit flag and the payoff written. *)
Definition settled {currency : CurrencyType} (share : Q) (p p' : Player.t) : Prop :=
  exists reported real audited tax,
    Player.reported_income p = Some reported /\
    Player.real_effort_income p = Some real /\
    (audited = 1 \/ audited = 0) /\
    tax = Currency (reported * Constants.tax_rate) /\
    p' = Player.set_payoff
           (if audited =? 1
            then (real - tax + share
                  - Constants.penalty_multiplier * Constants.tax_rate * (real - reported))%Q
            else (real - tax + share)%Q)
           (Player.set_if_audited audited (Player.set_tax_paid tax p)).

(** The reading of the settlement of a group of three in which the stored
    amounts are the exact products and quotients: each tax is the report
    times 0.4, the total is the sum of the three taxes, and the share is the
    total times 0.5 divided by 3. *)
Definition settled_exactly {currency : CurrencyType}
    (g : Group.t) (ps : list Player.t) (r : RandomState) : Prop :=
  exists g' ps' r' x1 x2 x3 t1 t2 t3 total share,
    set_payoffs g ps r = (inr (g', ps'), r') /\
    map Player.reported_income ps = [Some x1; Some x2; Some x3] /\
    map Player.tax_paid ps' = [Some t1; Some t2; Some t3] /\
    (t1 == x1 * 0.4)%Q /\ (t2 == x2 * 0.4)%Q /\ (t3 == x3 * 0.4)%Q /\
    Group.total_tax_paid g' = Some total /\
    (total == t1 + t2 + t3)%Q /\
    Group.individual_share g' = Some share /\
    (share == total * 0.5 / 3)%Q.

(** *** End of the puzzle page *)

(** The audit weight that [before_next_page] derives from a treatment. *)
Definition audit_weight_for (treatment : option string) : Q :=
  if bool_decide (treatment = Some "EndoYes") || bool_decide (treatment = Some "ExoYes")
  then Constants.modified_audit_prob
  else Constants.default_audit_prob.

(** The player record after [before_next_page]. *)
Definition finalized_player (p : Player.t) : Player.t :=
  Player.set_real_effort_income
    (inject_Z (Player.num_correct p * Constants.real_effort_multiplier)) p.

(** The iteration budget is used up: the player's [iteration] has reached
    the cap (the test of [play_game] on the current puzzle, whose iteration is
    the player's). *)
Definition exhausted (params : Params.t) (p : Player.t) : Prop :=
  Params.max_iterations params = Some (Player.iteration p).

(** The reading of the guard of [before_next_page] under which a submission
    with neither a timeout nor a used-up budget is refused. *)
Definition refuses_unfinished (params : Params.t) (s : Stage.t) : Prop :=
  ~ exhausted params (Stage.player s) ->
  exists e, fst (before_next_page params false s) = inl e.

(** *** The live protocol *)

(** The reading [time.time()] returns next, and the world after that call. *)
Definition now_of (w : World.t) : Q :=
  ticks (World.clock w) (reads (World.clock w)).

Definition ticked (w : World.t) : World.t :=
  World.set_clock
    {| ticks := ticks (World.clock w); reads := S (reads (World.clock w)) |} w.

(** The rows [get_current_puzzle] finds for the player of the world. *)
Definition current_of (w : World.t) : list (nat * Puzzle.t) :=
  Puzzle.filter (Player.id (World.player w)) (Player.iteration (World.player w))
    (World.puzzles w).

(** The messages [{'type': 'next'}] and [{'type': 'answer', 'answer': a}]. *)
Definition next_message : Message.t :=
  {| Message.type := "next"; Message.answer := None |}.

Definition answer_message (a : json) : Message.t :=
  {| Message.type := "answer"; Message.answer := Some a |}.

(** The two protocol errors of the [next] branch. *)
Definition skipping : exn + nat * Response :=
  inl (RuntimeError "trying to skip over unsolved puzzle").

Definition too_fast : exn + nat * Response :=
  inl (RuntimeError "retrying too fast").

(** A puzzle was issued by this invocation. *)
Definition issued (out : exn + nat * Response) : bool :=
  match out with
  | inr (_, puzzle _ _) => true
  | _ => false
  end.

(** The number of elements of a list that pass a test. *)
Fixpoint count {A} (f : A -> bool) (l : list A) : nat :=
  match l with
  | [] => O
  | a :: l' => if f a then S (count f l') else count f l'
  end.

(** The puzzles of a player that carry a response, and among them those whose
    latest response was judged correct, or not. *)
Definition answered_by (player_id : nat) (z : Puzzle.t) : bool :=
  (Puzzle.player z =? player_id)%nat && negb (bool_decide (Puzzle.response z = None)).

Definition judged_correct (player_id : nat) (z : Puzzle.t) : bool :=
  answered_by player_id z && bool_decide (Puzzle.is_correct z = Some true).

Definition judged_failed (player_id : nat) (z : Puzzle.t) : bool :=
  answered_by player_id z && negb (bool_decide (Puzzle.is_correct z = Some true)).

(** The progress counters count each answered puzzle once, under the verdict
    on its latest response. *)
Definition counts_latest (w : World.t) : Prop :=
  let me := Player.id (World.player w) in
  Player.num_trials (World.player w)
  = Z.of_nat (count (answered_by me) (World.puzzles w)) /\
  Player.num_correct (World.player w)
  = Z.of_nat (count (judged_correct me) (World.puzzles w)) /\
  Player.num_failed (World.player w)
  = Z.of_nat (count (judged_failed me) (World.puzzles w)).

(** The number of rows of the player of the world at iteration [it]. *)
Definition copies (w : World.t) (it : Z) : nat :=
  length (Puzzle.filter (Player.id (World.player w)) it (World.puzzles w)).

(** No iteration has two rows of the player, and none beyond the player's
    iteration counter has any. *)
Definition well_numbered (w : World.t) : Prop :=
  forall it,
    (copies w it <= 1)%nat /\
    (Player.iteration (World.player w) < it -> copies w it = 0%nat).

(** [w'] has the rows of [w], up to the contents of one of them, and the same
    player at the same iteration. *)
Definition same_numbering (w w' : World.t) : Prop :=
  Player.id (World.player w') = Player.id (World.player w) /\
  Player.iteration (World.player w') = Player.iteration (World.player w) /\
  (World.puzzles w' = World.puzzles w \/
   exists i z z',
     World.puzzles w !! i = Some z /\
     World.puzzles w' = <[i := z']> (World.puzzles w) /\
     Puzzle.player z' = Puzzle.player z /\
     Puzzle.iteration z' = Puzzle.iteration z).

(** [w'] is [w] after the issue of one puzzle: the player's iteration went up
    by one and a row with that iteration was added for the player. *)
Definition one_issued (w w' : World.t) : Prop :=
  exists z,
    World.puzzles w' = World.puzzles w ++ [z] /\
    World.player w'
    = Player.set_iteration (Player.iteration (World.player w) + 1) (World.player w) /\
    Puzzle.player z = Player.id (World.player w) /\
    Puzzle.iteration z = Player.iteration (World.player w) + 1.

(** *** Further vocabulary: settlement, voting and session set-up *)

(** The record the second loop of [set_payoffs] leaves for a player. *)
Definition pay_of (share : Q) (p : Player.t) : Player.t :=
  let real := default 0%Q (Player.real_effort_income p) in
  let tax := default 0%Q (Player.tax_paid p) in
  let reported := default 0%Q (Player.reported_income p) in
  Player.set_payoff
    (if bool_decide (Player.if_audited p = Some 1)
     then (real - tax + share
           - Constants.penalty_multiplier * Constants.tax_rate * (real - reported))%Q
     else (real - tax + share)%Q) p.

(** The random source after [n] calls of [random()]. *)
Definition advanced (n : nat) (r : RandomState) : RandomState :=
  {| tape := tape r; pos := (pos r + n)%nat |}.

(** The group record after the vote count, and after the override draws. *)
Definition endogenous (tally : Z) (g : Group.t) : Group.t :=
  if Qltb (inject_Z Constants.players_per_group / 2)%Q (inject_Z tally)
  then Group.set_treatment (Some "EndoYes") (Group.set_total_if_vote tally g)
  else Group.set_treatment (Some "EndoNo") (Group.set_total_if_vote tally g).

Definition decided (tally override second : Z) (g : Group.t) : Group.t :=
  if override =? 1
  then Group.set_treatment (Some (if second =? 1 then "ExoYes" else "ExoNo"))
         (Group.set_if_override true (endogenous tally g))
  else Group.set_if_override false (endogenous tally g).

(** The number of yes votes. *)
Definition yes_votes (votes : list bool) : Z :=
  Z.of_nat (length (filter (fun b : bool => b = true) votes)).

(** The keys of [defaults]. *)
Definition is_param (k : string) : bool :=
  bool_decide (k ∈ ["retry_delay"; "puzzle_delay"; "attempts_per_puzzle"; "max_iterations"]).

(** [defaults[param]]. *)
Definition default_of (k : string) : value :=
  default VNone ((list_to_map session_defaults : gmap string value) !! k).

(** *** Further vocabulary: the live protocol *)

(** The message [{'type': 'load'}]. *)
Definition load_message : Message.t :=
  {| Message.type := "load"; Message.answer := None |}.

(** The progress [get_progress] reports for a player record. *)
Definition progress_of (p : Player.t) : Progress :=
  {| p_num_trials := Player.num_trials p;
     p_num_correct := Player.num_correct p;
     p_num_incorrect := Player.num_failed p;
     p_iteration := Player.iteration p |}.

(** The player record after the reversal of the last attempt on [current],
    and after the count of an attempt judged [verdict]. *)
Definition undone (current : Puzzle.t) (p : Player.t) : Player.t :=
  let p := Player.set_num_trials (Player.num_trials p - 1) p in
  if bool_decide (Puzzle.is_correct current = Some true)
  then Player.set_num_correct (Player.num_correct p - 1) p
  else Player.set_num_failed (Player.num_failed p - 1) p.

Definition judged (verdict : bool) (p : Player.t) : Player.t :=
  let p := if verdict
           then Player.set_num_correct (Player.num_correct p + 1) p
           else Player.set_num_failed (Player.num_failed p + 1) p in
  Player.set_num_trials (Player.num_trials p + 1) p.

(** The row of a puzzle after an accepted answer. *)
Definition latest_row (now : Q) (answer : string) (verdict : bool) (current : Puzzle.t)
  : Puzzle.t :=
  Puzzle.set_attempts (Puzzle.attempts current + 1)
    (Puzzle.set_response_timestamp now
       (Puzzle.set_is_correct verdict (Puzzle.set_response answer current))).

(** The invocation wrote nothing but the clock reading. *)
Definition quiet (w w' : World.t) : Prop :=
  World.player w' = World.player w /\ World.puzzles w' = World.puzzles w.

(** The conditions under which a [next] message is served with a puzzle: no
    puzzle is current, or the current one is answered, its delay has passed
    and its iteration is not the cap. *)
Definition issue_allowed (params : Params.t) (w : World.t) : Prop :=
  current_of w = [] \/
  exists i c,
    current_of w = [(i, c)] /\
    Puzzle.response c <> None /\
    (Puzzle.timestamp c + Params.puzzle_delay params <= now_of w)%Q /\
    Params.max_iterations params <> Some (Puzzle.iteration c).

(** [w'] is [w] after the issue of a puzzle, with the new row spelled out. *)
Definition issue_step (w w' : World.t) : Prop :=
  exists z,
    World.puzzles w' = World.puzzles w ++ [z] /\
    World.player w'
    = Player.set_iteration (Player.iteration (World.player w) + 1) (World.player w) /\
    Puzzle.player z = Player.id (World.player w) /\
    Puzzle.iteration z = Player.iteration (World.player w) + 1 /\
    Puzzle.attempts z = 0 /\
    Puzzle.response z = None /\
    Puzzle.is_correct z = None.

(** [w'] is [w] after an accepted answer [a] to the current puzzle, which is
    either the first answer or a retry within the limit and after the delay;
    [out] is the feedback sent. *)
Definition answer_step {task_module : TaskModule} (params : Params.t)
    (w w' : World.t) (out : exn + nat * Response) : Prop :=
  exists i c a,
    current_of w = [(i, c)] /\
    a <> EmptyString /\
    (Puzzle.response c = None \/
     Puzzle.response c <> None /\
     Puzzle.attempts c < Params.attempts_per_puzzle params /\
     exists answered,
       Puzzle.response_timestamp c = Some answered /\
       (answered + Params.retry_delay params <= now_of w)%Q) /\
    let verdict := is_correct a (Puzzle.set_response a c) in
    let before := if bool_decide (Puzzle.response c = None)
                  then World.player w else undone c (World.player w) in
    out = inr (Player.id_in_group (World.player w),
               feedback verdict
                 (Params.attempts_per_puzzle params - (Puzzle.attempts c + 1))
                 (progress_of (judged verdict before))) /\
    World.player w' = judged verdict before /\
    World.puzzles w' = <[i := latest_row (now_of w) a verdict c]> (World.puzzles w).

(** [w'] is [w] after a retry that passed the retry guards and was then
    refused for its answer: the last attempt is taken back, nothing else is
    written. *)
Definition bogus_retry_step (params : Params.t) (w w' : World.t) : Prop :=
  exists i c,
    current_of w = [(i, c)] /\
    Puzzle.response c <> None /\
    Puzzle.attempts c < Params.attempts_per_puzzle params /\
    World.player w' = undone c (World.player w) /\
    World.puzzles w' = World.puzzles w.

(** The answer that the [answer] branch refuses as bogus: the key ["answer"]
    is absent from the message, or its value is [None] or the empty string. *)
Definition bogus (m : Message.t) : Prop :=
  Message.answer m = None \/
  Message.answer m = Some JNull \/
  Message.answer m = Some (JString EmptyString).

(** [w'] is [w] after an [answer] message [m] that is a retry, has passed the
    guard on the attempts and the guard on the retry delay (the time is not
    before [response_timestamp + retry_delay]), and carries a bogus answer:
    the last attempt is taken back in the player record, the store is as it
    was. *)
Definition refused_retry_step (params : Params.t) (m : Message.t) (w w' : World.t)
  : Prop :=
  exists i c answered,
    Message.type m = "answer" /\
    bogus m /\
    current_of w = [(i, c)] /\
    Puzzle.response c <> None /\
    Puzzle.attempts c < Params.attempts_per_puzzle params /\
    Puzzle.response_timestamp c = Some answered /\
    (answered + Params.retry_delay params <= now_of w)%Q /\
    World.player w' = undone c (World.player w) /\
    World.puzzles w' = World.puzzles w.

(** The invocation returned a feedback message. *)
Definition feedback_sent (out : exn + nat * Response) : bool :=
  match out with
  | inr (_, feedback _ _ _) => true
  | _ => false
  end.

(** The invocation returned a response. *)
Definition served (out : exn + nat * Response) : bool :=
  match out with
  | inr _ => true
  | inl _ => false
  end.

(** The attempts of a row are within the limit (one attempt is always
    allowed), and a row without response has had none. *)
Definition within_limit (params : Params.t) (z : Puzzle.t) : Prop :=
  0 <= Puzzle.attempts z <= Z.max 1 (Params.attempts_per_puzzle params) /\
  (Puzzle.response z = None -> Puzzle.attempts z = 0).

(** The retries a feedback message announces are between 0 and the limit. *)
Definition retries_in_range (params : Params.t) (out : exn + nat * Response) : Prop :=
  match out with
  | inr (_, feedback _ retries_left _) =>
      0 <= retries_left < Params.attempts_per_puzzle params
  | _ => True
  end.

(** The rows of other players, and the rows of the player at earlier
    iterations. *)
Definition settled_row (w : World.t) (z : Puzzle.t) : Prop :=
  Puzzle.player z <> Player.id (World.player w) \/
  Puzzle.iteration z < Player.iteration (World.player w).

(** The invariant behind the cap: the numbering is well formed, the
    iteration is between 0 and the cap, and from the first puzzle on the
    player has a current row. *)
Definition under_cap (n : Z) (w : World.t) : Prop :=
  well_numbered w /\
  0 <= Player.iteration (World.player w) <= n /\
  (Player.iteration (World.player w) <> 0 -> exists z, current_of w = [z]).

(** ** Example inputs *)

(** A group of three that reported 100, 200 and 300, with the default audit
    weight, and a random source that alternates low and high samples. *)
Definition example_group : Group.t := Group.set_audit_weight 0.2 Group.empty.

Definition example_players : list Player.t :=
  [Player.set_real_effort_income 500 (Player.set_reported_income 100 (Player.fresh 1 1));
   Player.set_real_effort_income 300 (Player.set_reported_income 200 (Player.fresh 2 2));
   Player.set_real_effort_income 300 (Player.set_reported_income 300 (Player.fresh 3 3))].

Definition example_random : RandomState :=
  {| tape := fun n => if Nat.even n then 0.1%Q else 0.9%Q; pos := 0 |}.

(** A currency of two decimal places whose rounding sends a half away from
    zero. *)
Definition half_up (x : Q) : Z :=
  if Qle_bool 0 x then Qfloor (x + (1 # 2)) else (- Qfloor (- x + (1 # 2)))%Z.

Definition cents : CurrencyType.
Proof.
  refine {| decimal_places := 2; nearest := half_up |}.
  intros x. unfold half_up. apply Qabs_Qle_condition.
  destruct (Qle_bool 0 x).
  - pose proof (Qfloor_le (x + (1 # 2))) as Hle.
    pose proof (Qlt_floor (x + (1 # 2))) as Hlt.
    rewrite inject_Z_plus in Hlt. change (inject_Z 1) with 1%Q in Hlt.
    set (n := inject_Z _) in *. clearbody n. split; lra.
  - pose proof (Qfloor_le (- x + (1 # 2))) as Hle.
    pose proof (Qlt_floor (- x + (1 # 2))) as Hlt.
    rewrite inject_Z_plus in Hlt. change (inject_Z 1) with 1%Q in Hlt.
    rewrite inject_Z_opp. set (n := inject_Z _) in *. clearbody n. split; lra.
Defined.

(** A group of three in which only the first player has earned and reported
    an income, of 100. *)
Definition lone_earner : list Player.t :=
  [Player.set_real_effort_income 100 (Player.set_reported_income 100 (Player.fresh 1 1));
   Player.set_real_effort_income 0 (Player.set_reported_income 0 (Player.fresh 2 2));
   Player.set_real_effort_income 0 (Player.set_reported_income 0 (Player.fresh 3 3))].

(** The third round of a group whose vote round ended with ExoYes. *)
Definition example_stage : Stage.t :=
  {| Stage.player := Player.set_num_correct 4 (Player.set_iteration 5 (Player.fresh 1 1));
     Stage.round_number := 3;
     Stage.groups :=
       <[3 := Group.empty]>
         (<[2 := Group.set_treatment (Some "ExoYes") Group.empty]>
            (<[1 := example_group]> ∅)) |}.

(** A session capped at five puzzles, and the first round of a player who
    has had two. *)
Definition capped_params : Params.t :=
  {| Params.retry_delay := 1.0; Params.puzzle_delay := 1.0;
     Params.attempts_per_puzzle := 1; Params.max_iterations := Some 5 |}.

Definition early_stage : Stage.t :=
  {| Stage.player := Player.set_num_correct 1 (Player.set_iteration 2 (Player.fresh 1 1));
     Stage.round_number := 1;
     Stage.groups := <[2 := Group.empty]> (<[1 := Group.empty]> ∅) |}.

(** Modelled from the spec: a task provider in the style of the
    text-transcription task ([task_transcription] is not among the sources),
    for running the handler on concrete inputs.  The solution is the text,
    and an answer is correct when it is the solution. *)
Definition sample_task : TaskModule :=
  {| generate_puzzle_fields := fun r =>
       let u := tape r (pos r) in
       ({| f_text := if Qle_bool u 0.5 then "abc" else "xyz";
           f_solution := if Qle_bool u 0.5 then "abc" else "xyz" |},
        {| tape := tape r; pos := S (pos r) |});
     is_correct := fun answer z => String.eqb answer (Puzzle.solution z);
     render_image := fun z => Puzzle.text z |}.

(** The handler of a session that runs the sample task with the default
    parameters, and of one that allows a second attempt. *)
Definition sample_game : Message.t -> M World.t (nat * Response) :=
  play_game (task_module := sample_task) (fun image => image) false Params.defaults.

Definition retry_params : Params.t :=
  {| Params.retry_delay := 1.0; Params.puzzle_delay := 1.0;
     Params.attempts_per_puzzle := 2; Params.max_iterations := None |}.

Definition retry_game : Message.t -> M World.t (nat * Response) :=
  play_game (task_module := sample_task) (fun image => image) false retry_params.

(** A puzzle that was issued at time 3 and is not answered, and its player. *)
Definition issued_puzzle : Puzzle.t :=
  {| Puzzle.player := 7; Puzzle.iteration := 1; Puzzle.attempts := 0;
     Puzzle.timestamp := 3; Puzzle.text := "abc"; Puzzle.solution := "abc";
     Puzzle.response := None; Puzzle.response_timestamp := None;
     Puzzle.is_correct := None |}.

Definition issued_world : World.t :=
  {| World.player := Player.set_iteration 1 (Player.fresh 7 1);
     World.puzzles := [issued_puzzle];
     World.rng := example_random;
     World.clock := {| ticks := fun n => inject_Z (4 + Z.of_nat n); reads := 0 |} |}.

(** A puzzle created at time 0 and answered, correctly, at time 10; its
    player half a second after the answer, and two seconds after it. *)
Definition answered_puzzle : Puzzle.t :=
  {| Puzzle.player := 7; Puzzle.iteration := 1; Puzzle.attempts := 1;
     Puzzle.timestamp := 0; Puzzle.text := "abc"; Puzzle.solution := "abc";
     Puzzle.response := Some "abc"; Puzzle.response_timestamp := Some 10%Q;
     Puzzle.is_correct := Some true |}.

Definition answered_world : World.t :=
  {| World.player :=
       Player.set_num_correct 1
         (Player.set_num_trials 1 (Player.set_iteration 1 (Player.fresh 7 1)));
     World.puzzles := [answered_puzzle];
     World.rng := example_random;
     World.clock := {| ticks := fun _ => 10.5%Q; reads := 0 |} |}.

Definition retry_world : World.t :=
  {| World.player :=
       Player.set_num_correct 1
         (Player.set_num_trials 1 (Player.set_iteration 1 (Player.fresh 7 1)));
     World.puzzles := [answered_puzzle];
     World.rng := example_random;
     World.clock := {| ticks := fun _ => 12%Q; reads := 0 |} |}.


(** A player who has been issued nothing, in a store that holds a puzzle of
    another player, and a conversation with that player. *)
Definition fresh_world : World.t :=
  {| World.player := Player.fresh 8 2;
     World.puzzles := [answered_puzzle];
     World.rng := example_random;
     World.clock := {| ticks := fun n => inject_Z (2 * Z.of_nat n); reads := 0 |} |}.

Definition example_messages : list Message.t :=
  [next_message; next_message; answer_message (JString "abc");
   answer_message (JString "abc"); next_message; answer_message (JString EmptyString);
   next_message; answer_message (JString "xyz"); next_message].

(** A session capped at one puzzle, a [cheat] message, and a conversation in
    which every message is served. *)
Definition cap_one_params : Params.t :=
  {| Params.retry_delay := 1.0; Params.puzzle_delay := 1.0;
     Params.attempts_per_puzzle := 1; Params.max_iterations := Some 1 |}.

Definition cheat_message : Message.t :=
  {| Message.type := "cheat"; Message.answer := None |}.

Definition served_messages : list Message.t :=
  [next_message; answer_message (JString "abc"); next_message;
   answer_message (JString "abc"); answer_message (JString "xyz")].

(** * Properties *)

(** ** The monad *)

Lemma bind_ok {St A B} (m : M St A) (k : A -> M St B) s a s' :
  m s = (inr a, s') -> (m ≫= k) s = k a s'.
Proof. intros Hm. unfold mbind, M_bind. now rewrite Hm. Qed.

Lemma bind_err {St A B} (m : M St A) (k : A -> M St B) s e s' :
  m s = (inl e, s') -> (m ≫= k) s = (inl e, s').
Proof. intros Hm. unfold mbind, M_bind. now rewrite Hm. Qed.

Lemma field_ok {St A} name (a : A) (s : St) : field name (Some a) s = (inr a, s).
Proof. reflexivity. Qed.

(** A loop whose body succeeds on every element succeeds, and relates the
    elements pairwise. *)
Lemma mapM_ok {St A B} (f : A -> M St B) (P : A -> Prop) (R : A -> B -> Prop) l :
  (forall a s, P a -> exists b s', f a s = (inr b, s') /\ R a b) ->
  Forall P l ->
  forall s, exists bs s', mapM f l s = (inr bs, s') /\ Forall2 R l bs.
Proof.
  intros Hf. induction 1 as [|a l Ha _ IH]; intros s.
  - exists [], s. split; [reflexivity | constructor].
  - destruct (Hf a s Ha) as (b & s1 & Hb & HR).
    destruct (IH s1) as (bs & s2 & Hbs & HRs).
    exists (b :: bs), s2. split; [| now constructor].
    cbn [mapM]. rewrite (bind_ok _ _ _ _ _ Hb), (bind_ok _ _ _ _ _ Hbs).
    reflexivity.
Qed.

(** The same loop when the body does not touch the state. *)
Lemma mapM_pure {St A B} (f : A -> M St B) (g : A -> B) (P : A -> Prop) l :
  (forall a s, P a -> f a s = (inr (g a), s)) ->
  Forall P l ->
  forall s, mapM f l s = (inr (map g l), s).
Proof.
  intros Hf. induction 1 as [|a l Ha _ IH]; intros s; [reflexivity|].
  cbn [mapM]. rewrite (bind_ok _ _ _ _ _ (Hf a s Ha)), (bind_ok _ _ _ _ _ (IH s)).
  reflexivity.
Qed.

(** ** The random source *)

Lemma Qltb_lt x y : Qltb x y = true <-> (x < y)%Q.
Proof.
  unfold Qltb. rewrite negb_true_iff. split.
  - intros H. apply Qnot_le_lt. intros Hle. apply Qle_bool_iff in Hle. congruence.
  - intros H. destruct (Qle_bool y x) eqn:E; [|reflexivity].
    apply Qle_bool_iff in E. exfalso. exact (Qlt_not_le _ _ H E).
Qed.

Lemma Qltb_ge x y : Qltb x y = false <-> (y <= x)%Q.
Proof.
  unfold Qltb. rewrite negb_false_iff. apply Qle_bool_iff.
Qed.

(** A two-sided draw with positive total weight reads one sample and cannot
    raise. *)
Lemma choices_two a b r :
  Qle_bool (a + b) 0 = false ->
  choices [1; 0] [a; b] r = (inr [pick a b (next_sample r)], advance r).
Proof.
  intros Htotal. unfold choices. cbn [accumulate accumulate_from length Nat.eqb negb last].
  rewrite (bind_ok _ _ _ _ _ (field_ok _ _ _)). rewrite Htotal.
  unfold pick, next_sample.
  unfold mbind, M_bind, random. cbn [length Nat.sub bisect].
  destruct (Qltb _ a); reflexivity.
Qed.

Lemma audit_total_positive w : Qle_bool (w + (1 - w)) 0 = false.
Proof.
  destruct (Qle_bool (w + (1 - w)) 0) eqn:E; [|reflexivity].
  apply Qle_bool_iff in E. exfalso.
  assert (H : (w + (1 - w) == 1)%Q) by ring.
  rewrite H in E. apply Qle_not_lt in E. apply E. reflexivity.
Qed.

Lemma pick_cases a b u : pick a b u = 1 \/ pick a b u = 0.
Proof. unfold pick. destruct (Qltb _ a); auto. Qed.

(** ** Currency amounts *)

Lemma small_integer (n : Z) : (Qabs (inject_Z n) <= 1 # 2)%Q -> n = 0.
Proof. unfold Qabs, inject_Z, Qle. cbn. lia. Qed.

Lemma inject_Z_minus (a b : Z) : (inject_Z a - inject_Z b == inject_Z (a - b))%Q.
Proof. unfold Qminus. now rewrite <- inject_Z_opp, <- inject_Z_plus. Qed.

Lemma pow10_mod3 (k : nat) : (10 ^ Z.of_nat k) mod 3 = 1.
Proof.
  induction k as [|k IH]; [reflexivity|].
  rewrite Nat2Z.inj_succ, Z.pow_succ_r by lia.
  rewrite Z.mul_mod, IH by lia. reflexivity.
Qed.

Lemma sum_from (a : Q) (l : list Q) : (fold_left Qplus l a == a + foldr Qplus 0 l)%Q.
Proof.
  revert a. induction l as [|x l IH]; intros a; cbn [fold_left foldr].
  - ring.
  - rewrite IH. ring.
Qed.

Lemma sum_foldr (l : list Q) : (sum l == foldr Qplus 0 l)%Q.
Proof. unfold sum. rewrite sum_from. ring. Qed.

Section CurrencyFacts.
Context {currency : CurrencyType}.

Lemma scale_positive : (0 < scale)%Q.
Proof.
  unfold scale. change 0%Q with (inject_Z 0). rewrite <- Zlt_Qlt.
  apply Z.pow_pos_nonneg; lia.
Qed.

Lemma scale_nonzero : ~ (scale == 0)%Q.
Proof. intros H. pose proof scale_positive as Hs. rewrite H in Hs. inversion Hs. Qed.

Lemma Currency_rounded x : rounded x (Currency x).
Proof.
  split.
  - exists (nearest (x * scale)). unfold Currency. field. exact scale_nonzero.
  - pose proof scale_positive as Hs.
    pose proof (nearest_close (x * scale)) as H.
    assert (E : (Currency x - x == (inject_Z (nearest (x * scale)) - x * scale) / scale)%Q).
    { unfold Currency. field. exact scale_nonzero. }
    rewrite E. unfold Qdiv. rewrite Qabs_Qmult.
    rewrite (Qabs_pos (/ scale)) by (apply Qlt_le_weak, Qinv_lt_0_compat, Hs).
    rewrite <- Qmult_assoc, (Qmult_comm (/ scale)), Qmult_inv_r, Qmult_1_r;
      [exact H | exact scale_nonzero].
Qed.

(** Rounding an amount that the currency can hold returns it. *)
Lemma rounded_exact x y : representable x -> rounded x y -> (y == x)%Q.
Proof.
  intros [a Ha] [[b Hb] Hclose].
  pose proof scale_positive as Hs.
  assert (E : (Qabs (y - x) * scale == Qabs (inject_Z (b - a)))%Q).
  { rewrite <- (Qabs_pos scale) at 1 by (apply Qlt_le_weak, Hs).
    rewrite <- Qabs_Qmult. apply Qabs_wd. rewrite <- inject_Z_minus, <- Ha, <- Hb. ring. }
  rewrite E in Hclose. apply small_integer in Hclose.
  assert (b = a) by lia. subst b.
  apply (Qmult_inj_r _ _ scale); [exact scale_nonzero|]. now rewrite Ha, Hb.
Qed.

Lemma whole_representable x (z : Z) : (x == inject_Z z)%Q -> representable x.
Proof.
  intros E. exists (z * 10 ^ Z.of_nat decimal_places). rewrite E. unfold scale.
  now rewrite inject_Z_mult.
Qed.

Lemma Currency_whole x (z : Z) : (x == inject_Z z)%Q -> (Currency x == inject_Z z)%Q.
Proof.
  intros E. rewrite <- E. apply rounded_exact; [exact (whole_representable _ _ E)|].
  apply Currency_rounded.
Qed.

Lemma representable_times x (k : Z) : representable x -> representable (x * inject_Z k).
Proof.
  intros [n Hn]. exists (n * k). rewrite inject_Z_mult, <- Hn. ring.
Qed.

(** No currency holds a third of 20. *)
Lemma third_not_representable x : (x == 20 / 3)%Q -> ~ representable x.
Proof.
  intros E [n Hn]. rewrite E in Hn. unfold scale in Hn.
  assert (H : (inject_Z (20 * 10 ^ Z.of_nat decimal_places) == inject_Z (3 * n))%Q).
  { rewrite !inject_Z_mult, <- Hn. field. }
  apply (proj1 (inject_Z_injective _ _)) in H.
  assert (Hmod : (20 * 10 ^ Z.of_nat decimal_places) mod 3 = 2).
  { rewrite Z.mul_mod, pow10_mod3 by lia. reflexivity. }
  rewrite H, Z.mul_comm, Z.mod_mul in Hmod by lia. discriminate.
Qed.

End CurrencyFacts.

(** ** Settlement *)

Section Settlement.
Context {currency : CurrencyType}.

Lemma tax_and_audit_ok g w p reported r :
  Group.audit_weight g = Some w ->
  Player.reported_income p = Some reported ->
  tax_and_audit g p r =
    (inr (Player.set_if_audited (pick w (1 - w) (next_sample r))
            (Player.set_tax_paid (Currency (reported * Constants.tax_rate)) p)),
     advance r).
Proof.
  intros Hw Hrep. unfold tax_and_audit. rewrite Hrep, Hw.
  rewrite (bind_ok _ _ _ _ _ (field_ok _ _ _)).
  rewrite (bind_ok _ _ _ _ _ (field_ok _ _ _)).
  rewrite (bind_ok _ _ _ _ _ (choices_two _ _ _ (audit_total_positive w))).
  reflexivity.
Qed.

Lemma pay_ok g share p real tax reported audited (r : RandomState) :
  Group.individual_share g = Some share ->
  Player.real_effort_income p = Some real ->
  Player.tax_paid p = Some tax ->
  Player.reported_income p = Some reported ->
  Player.if_audited p = Some audited ->
  pay g p r =
    (inr (Player.set_payoff
            (if audited =? 1
             then (real - tax + share
                   - Constants.penalty_multiplier * Constants.tax_rate * (real - reported))%Q
             else (real - tax + share)%Q) p), r).
Proof.
  intros Hs Hreal Htax Hrep Haud. unfold pay. rewrite Hs, Hreal, Htax, Hrep, Haud.
  destruct (Z.eqb_spec audited 1) as [->|Hne].
  - rewrite bool_decide_eq_true_2 by reflexivity. reflexivity.
  - rewrite bool_decide_eq_false_2 by congruence. reflexivity.
Qed.

(** The outcome of [set_payoffs] on a group whose audit weight is set and
    whose players are ready: it returns, with the group totals and every
    player's record as the source computes them. *)
Lemma set_payoffs_settles g ps r w :
  Group.audit_weight g = Some w ->
  Forall ready ps ->
  let total := sum (map tax_due ps) in
  let share := Currency (Currency (total * Constants.redistribution_multiplier)
                         / inject_Z Constants.players_per_group) in
  exists ps' r',
    set_payoffs g ps r =
      (inr (Group.set_individual_share share (Group.set_total_tax_paid total g), ps'), r')
    /\ Forall2 (settled share) ps ps'.
Proof.
  intros Hw Hready total share.
  set (taxed := fun p p1 : Player.t =>
         exists reported real audited,
           Player.reported_income p = Some reported /\
           Player.real_effort_income p = Some real /\
           (audited = 1 \/ audited = 0) /\
           p1 = Player.set_if_audited audited
                  (Player.set_tax_paid (Currency (reported * Constants.tax_rate)) p)).
  destruct (mapM_ok (tax_and_audit g) ready taxed ps) with (s := r)
    as (ps1 & r1 & Hloop1 & Htaxed); [|exact Hready|].
  { intros p s [[x Hx] [y Hy]].
    eexists _, _. split; [exact (tax_and_audit_ok _ _ _ _ _ Hw Hx)|].
    exists x, y, (pick w (1 - w) (next_sample s)).
    repeat split; auto using pick_cases. }
  assert (Htaxes : map (fun p1 => default 0%Q (Player.tax_paid p1)) ps1 = map tax_due ps).
  { clear -Htaxed. induction Htaxed as [|p p1 ps ps1 (x & y & a & Hx & _ & _ & ->) _ IH];
      [reflexivity|].
    cbn [map]. rewrite IH. unfold tax_due. rewrite Hx. reflexivity. }
  assert (Hloop2 : mapM (fun p => field (St := RandomState) "tax_paid" (Player.tax_paid p)) ps1 r1
                   = (inr (map tax_due ps), r1)).
  { rewrite <- Htaxes.
    apply mapM_pure with (P := fun p1 => is_Some (Player.tax_paid p1)).
    - intros p1 s [t Ht]. rewrite Ht. reflexivity.
    - clear -Htaxed. induction Htaxed as [|p p1 ps ps1 (x & y & a & _ & _ & _ & ->) _ IH];
        constructor; [eexists; reflexivity | exact IH]. }
  set (g2 := Group.set_individual_share share (Group.set_total_tax_paid total g)).
  destruct (mapM_ok (pay g2) (fun p1 => exists p, taxed p p1)
              (fun p1 p' => forall p, taxed p p1 -> settled share p p') ps1) with (s := r1)
    as (ps' & r' & Hloop3 & Hsettled).
  { intros p1 s (p & x & y & a & Hx & Hy & Ha & ->).
    eexists _, s. split.
    - apply pay_ok with (share := share) (real := y) (reported := x) (audited := a)
                        (tax := Currency (x * Constants.tax_rate)); auto.
    - intros q (x' & y' & a' & Hx' & Hy' & Ha' & Heq).
      exists x', y', a', (Currency (x' * Constants.tax_rate)).
      assert (a = a') by (apply (f_equal Player.if_audited) in Heq; cbn in Heq; congruence).
      assert (Some x = Some x') as [= ->].
      { apply (f_equal Player.reported_income) in Heq; cbn in Heq. congruence. }
      assert (Some y = Some y') as [= ->].
      { apply (f_equal Player.real_effort_income) in Heq; cbn in Heq. congruence. }
      subst a'. repeat split; auto. rewrite Heq. reflexivity. }
  { clear -Htaxed. induction Htaxed; constructor; eauto. }
  exists ps', r'. split.
  - unfold set_payoffs.
    rewrite (bind_ok _ _ _ _ _ Hloop1), (bind_ok _ _ _ _ _ Hloop2).
    cbn [Group.total_tax_paid Group.set_total_tax_paid].
    rewrite (bind_ok _ _ _ _ _ (field_ok _ _ _)).
    fold total. fold share. fold g2.
    rewrite (bind_ok _ _ _ _ _ Hloop3). reflexivity.
  - clearbody share. clear -Htaxed Hsettled. revert ps' Hsettled.
    induction Htaxed as [|p p1 ps ps1 Hp _ IH]; intros ps' Hs; inversion Hs; subst;
      constructor; auto.
Qed.

Lemma on_record_ready ps incomes reals :
  map Player.reported_income ps = map Some incomes ->
  map Player.real_effort_income ps = map Some reals ->
  Forall ready ps.
Proof.
  revert incomes reals. induction ps as [|p ps IH]; intros [|x xs] [|y ys] Hx Hy;
    try discriminate; constructor.
  - injection Hx as Hx _. injection Hy as Hy _. split; eauto.
  - injection Hx as _ Hx. injection Hy as _ Hy. eauto.
Qed.

Lemma tax_due_of_incomes ps incomes :
  map Player.reported_income ps = map Some incomes ->
  map tax_due ps = map (fun x => Currency (x * Constants.tax_rate)) incomes.
Proof.
  revert incomes. induction ps as [|p ps IH]; intros [|x xs] Hx; try discriminate;
    [reflexivity|].
  injection Hx as Hp Hx. cbn [map]. rewrite (IH _ Hx). unfold tax_due. now rewrite Hp.
Qed.

Lemma settled_tax_paid share ps ps' :
  Forall2 (settled share) ps ps' ->
  map Player.tax_paid ps' = map Some (map tax_due ps).
Proof.
  induction 1 as [|p p' ps ps' (x & y & a & t & Hx & _ & _ & -> & ->) _ IH];
    [reflexivity|].
  cbn [map]. rewrite IH. unfold tax_due. rewrite Hx. reflexivity.
Qed.

(** The share of a total: the two roundings of line 273. *)
Lemma share_rounded total :
  let half := Currency (total * 0.5) in
  let share := Currency (half / 3) in
  rounded (total * 0.5) half /\ rounded (half / 3) share /\
  (representable (total * 0.5 / 3) -> (share == total * 0.5 / 3)%Q).
Proof.
  intros half share. split; [apply Currency_rounded|]. split; [apply Currency_rounded|].
  intros Hthird.
  assert (Hhalf : (half == total * 0.5)%Q).
  { apply rounded_exact; [|apply Currency_rounded].
    destruct (representable_times _ 3 Hthird) as [n Hn]. exists n. rewrite <- Hn. field. }
  transitivity (half / 3)%Q; [|now rewrite Hhalf].
  apply rounded_exact; [|apply Currency_rounded].
  destruct Hthird as [n Hn]. exists n. now rewrite Hhalf.
Qed.

(** C1, as amended. In [set_payoffs], each player's [tax_paid] is the
    reported income times the tax rate 0.4 rounded to the currency,
    [total_tax_paid] is the sum of the taxes paid in the group (for a group
    of three, of the three taxes), and [individual_share] is that total
    times 0.5, rounded, divided by 3 and rounded again; each rounding
    returns an amount that the currency holds, at most half a smallest unit
    away, and so the exact value where the currency holds it.  The share is
    the same whatever the audit draws are, and every player's record is
    settled with that one share.  For reported incomes 100, 200, 300 the
    taxes are 40, 80, 120, the total 240 and the share 40. *)
Theorem set_payoffs_tax_and_share
    (g : Group.t) (ps : list Player.t) (r : RandomState) (w : Q)
    (incomes reals : list Q) :
  Group.audit_weight g = Some w ->
  map Player.reported_income ps = map Some incomes ->
  map Player.real_effort_income ps = map Some reals ->
  exists g' ps' r' taxes total half share,
    set_payoffs g ps r = (inr (g', ps'), r') /\
    map Player.tax_paid ps' = map Some taxes /\
    Group.total_tax_paid g' = Some total /\
    Group.individual_share g' = Some share /\
    Forall2 (fun x tax =>
               tax = Currency (x * 0.4) /\
               rounded (x * 0.4) tax /\
               (representable (x * 0.4) -> (tax == x * 0.4)%Q))
      incomes taxes /\
    (total == foldr Qplus 0 taxes)%Q /\
    (forall t1 t2 t3, taxes = [t1; t2; t3] -> (total == t1 + t2 + t3)%Q) /\
    half = Currency (total * 0.5) /\
    rounded (total * 0.5) half /\
    share = Currency (half / 3) /\
    rounded (half / 3) share /\
    (representable (total * 0.5 / 3) -> (share == total * 0.5 / 3)%Q) /\
    Forall2 (settled share) ps ps' /\
    (forall r2, exists ps2 r2', set_payoffs g ps r2 = (inr (g', ps2), r2')) /\
    (incomes = [100; 200; 300]%Q ->
     Forall2 Qeq taxes [40; 80; 120]%Q /\ (total == 240)%Q /\ (share == 40)%Q).
Proof.
  intros Hw Hx Hy.
  pose proof (on_record_ready _ _ _ Hx Hy) as Hready.
  pose proof (tax_due_of_incomes _ _ Hx) as Hdue.
  destruct (set_payoffs_settles g ps r w Hw Hready) as (ps' & r' & Hrun & Hsettled).
  cbv zeta in Hrun, Hsettled. rewrite Hdue in Hrun, Hsettled.
  set (taxes := map (fun x => Currency (x * Constants.tax_rate)) incomes) in *.
  set (total := sum taxes) in *.
  set (half := Currency (total * Constants.redistribution_multiplier)) in *.
  set (share := Currency (half / inject_Z Constants.players_per_group)) in *.
  destruct (share_rounded total) as (Hhalf & Hshare & Hexact).
  exists (Group.set_individual_share share (Group.set_total_tax_paid total g)),
    ps', r', taxes, total, half, share.
  split; [exact Hrun|].
  split; [rewrite (settled_tax_paid _ _ _ Hsettled), Hdue; reflexivity|].
  split; [reflexivity|]. split; [reflexivity|].
  split.
  { subst taxes. clear. induction incomes as [|x xs IH]; constructor; [|exact IH].
    split; [reflexivity|]. split; [apply Currency_rounded|].
    intros Hrep. apply rounded_exact; [exact Hrep | apply Currency_rounded]. }
  split; [apply sum_foldr|].
  split.
  { intros t1 t2 t3 E. subst total. rewrite E. unfold sum. cbn [fold_left]. ring. }
  split; [reflexivity|]. split; [exact Hhalf|].
  split; [reflexivity|]. split; [exact Hshare|].
  split; [exact Hexact|]. split; [exact Hsettled|]. split.
  - intros r2.
    destruct (set_payoffs_settles g ps r2 w Hw Hready) as (ps2 & r2' & Hrun2 & _).
    cbv zeta in Hrun2. rewrite Hdue in Hrun2. exists ps2, r2'. exact Hrun2.
  - intros Hinc.
    assert (E1 : (Currency (100 * Constants.tax_rate) == 40)%Q)
      by (apply (Currency_whole _ 40); reflexivity).
    assert (E2 : (Currency (200 * Constants.tax_rate) == 80)%Q)
      by (apply (Currency_whole _ 80); reflexivity).
    assert (E3 : (Currency (300 * Constants.tax_rate) == 120)%Q)
      by (apply (Currency_whole _ 120); reflexivity).
    assert (Etotal : (total == 240)%Q).
    { subst total taxes. rewrite Hinc. unfold sum. cbn [map fold_left].
      rewrite E1, E2, E3. reflexivity. }
    split; [|split].
    + subst taxes. rewrite Hinc. cbn [map]. repeat constructor; assumption.
    + exact Etotal.
    + subst share. apply (Currency_whole _ 40).
      subst half. rewrite (Currency_whole _ 120); [reflexivity|].
      rewrite Etotal. reflexivity.
Qed.

Lemma penalty_rate : (Constants.penalty_multiplier * Constants.tax_rate == 1)%Q.
Proof. reflexivity. Qed.

(** C2. In [set_payoffs], a player who is not audited is paid
    [real_effort_income - tax_paid + individual_share]; an audited player is
    paid that amount minus
    [penalty_multiplier * tax_rate * (real_effort_income - reported_income)],
    where [penalty_multiplier] is [1 / tax_rate], that is 2.5.  An audited
    player who earned 500 and reported 100 pays 40 in tax and a penalty of
    [2.5 * 0.4 * 400 = 400]. *)
Theorem set_payoffs_payoff
    (g : Group.t) (ps : list Player.t) (r : RandomState) (w : Q)
    (incomes reals : list Q) :
  Group.audit_weight g = Some w ->
  map Player.reported_income ps = map Some incomes ->
  map Player.real_effort_income ps = map Some reals ->
  exists g' ps' r' share,
    set_payoffs g ps r = (inr (g', ps'), r') /\
    Group.individual_share g' = Some share /\
    Forall2
      (fun p p' =>
         exists real reported tax,
           Player.real_effort_income p = Some real /\
           Player.reported_income p = Some reported /\
           Player.tax_paid p' = Some tax /\
           (Player.if_audited p' = Some 1 \/ Player.if_audited p' = Some 0) /\
           (Player.if_audited p' = Some 0 ->
            Player.payoff p' = (real - tax + share)%Q) /\
           (Player.if_audited p' = Some 1 ->
            let penalty :=
              (Constants.penalty_multiplier * Constants.tax_rate * (real - reported))%Q in
            Player.payoff p' = (real - tax + share - penalty)%Q /\
            (real = 500%Q -> reported = 100%Q ->
             (tax == 40)%Q /\ (penalty == 400)%Q /\
             (Player.payoff p' == 500 - 40 + share - 400)%Q)))
      ps ps' /\
    Constants.penalty_multiplier = (1 / Constants.tax_rate)%Q /\
    (Constants.penalty_multiplier == 2.5)%Q.
Proof.
  intros Hw Hx Hy.
  pose proof (on_record_ready _ _ _ Hx Hy) as Hready.
  destruct (set_payoffs_settles g ps r w Hw Hready) as (ps' & r' & Hrun & Hsettled).
  cbv zeta in Hrun, Hsettled.
  eexists _, ps', r', _. split; [exact Hrun|]. split; [reflexivity|].
  split; [|split; reflexivity].
  eapply Forall2_impl; [exact Hsettled|].
  intros p p' (x & y & a & t & Hrep & Hreal & Ha & -> & ->).
  exists y, x, (Currency (x * Constants.tax_rate)).
  cbn [Player.tax_paid Player.if_audited Player.payoff Player.set_payoff
       Player.set_if_audited Player.set_tax_paid].
  split; [exact Hreal|]. split; [exact Hrep|]. split; [reflexivity|].
  split; [destruct Ha as [-> | ->]; auto|]. split.
  - intros [= ->]. reflexivity.
  - intros [= ->]. cbv zeta. split; [reflexivity|].
    intros -> ->.
    assert (Etax : (Currency (100 * Constants.tax_rate) == 40)%Q)
      by (apply (Currency_whole _ 40); reflexivity).
    split; [exact Etax|]. split; [reflexivity|].
    cbn [Z.eqb Pos.eqb]. set (share := Currency (Currency _ / _)). clearbody share.
    rewrite Etax. unfold Constants.penalty_multiplier, Constants.tax_rate. field.
Qed.

End Settlement.

(** The settlement of a group reporting 100, 200 and 300, in a currency of
    two places. *)
Lemma set_payoffs_tax_and_share_witness :
  exists g' ps' r' total share,
    set_payoffs (currency := cents) example_group example_players example_random
    = (inr (g', ps'), r') /\
    Group.total_tax_paid g' = Some total /\ (total == 240)%Q /\
    Group.individual_share g' = Some share /\ (share == 40)%Q.
Proof.
  destruct (set_payoffs_tax_and_share (currency := cents)
              example_group example_players example_random 0.2
              [100; 200; 300]%Q [500; 300; 300]%Q)
    as (g' & ps' & r' & taxes & total & half & share & Hrun & _ & Htotal & Hshare
        & _ & _ & _ & _ & _ & _ & _ & _ & _ & _ & Hinstance);
    [reflexivity | reflexivity | reflexivity |].
  destruct (Hinstance eq_refl) as (_ & Etotal & Eshare).
  exists g', ps', r', total, share. auto.
Defined.

(** In no currency do the stored amounts of the group of [lone_earner] equal
    the exact quotients: the taxes are 40, 0 and 0 and their total is 40, so
    the share would be a third of 20, which no decimal amount is. *)
Lemma set_payoffs_share_counterexample :
  ~ exists currency : CurrencyType,
      settled_exactly (currency := currency) example_group lone_earner example_random.
Proof.
  intros (currency & g' & ps' & r' & x1 & x2 & x3 & t1 & t2 & t3 & total & share
          & Hrun & Hx & Ht & E1 & E2 & E3 & Htotal & Etotal & Hshare & Eshare).
  injection Hx as <- <- <-.
  destruct (set_payoffs_settles example_group lone_earner example_random 0.2)
    as (ps1 & r1 & Hrun1 & _); [reflexivity | |].
  { repeat constructor; eexists; reflexivity. }
  cbv zeta in Hrun1. rewrite Hrun in Hrun1. injection Hrun1 as -> _ _.
  cbn [Group.individual_share Group.set_individual_share] in Hshare.
  injection Hshare as Hshare.
  apply (third_not_representable share).
  - rewrite Eshare, Etotal, E1, E2, E3. reflexivity.
  - rewrite <- Hshare. destruct (Currency_rounded
      (Currency (sum (map tax_due lone_earner) * Constants.redistribution_multiplier)
       / inject_Z Constants.players_per_group)) as [Hrep _]. exact Hrep.
Qed.

(** The payoffs of a group in which the first player, who earned 500 and
    reported 100, is audited. *)
Lemma set_payoffs_payoff_witness :
  exists g' ps' r' share,
    set_payoffs (currency := cents) example_group example_players example_random
    = (inr (g', ps'), r') /\
    Group.individual_share g' = Some share /\
    length ps' = 3%nat.
Proof.
  destruct (set_payoffs_payoff (currency := cents)
              example_group example_players example_random 0.2
              [100; 200; 300]%Q [500; 300; 300]%Q)
    as (g' & ps' & r' & share & Hrun & Hshare & Hall & _);
    [reflexivity | reflexivity | reflexivity |].
  exists g', ps', r', share. split; [exact Hrun|]. split; [exact Hshare|].
  symmetry. exact (Forall2_length _ _ _ Hall).
Defined.

(** ** Voting *)

Lemma sum_bool_from acc l :
  fold_left (fun acc b => acc + Z_of_bool b) l acc
  = acc + Z.of_nat (length (filter (fun b : bool => b = true) l)).
Proof.
  revert acc. induction l as [|b l IH]; intros acc; cbn [fold_left].
  - cbn. lia.
  - rewrite IH. destruct b.
    + rewrite filter_cons_True by reflexivity. cbn [length Z_of_bool]. lia.
    + rewrite filter_cons_False by discriminate. cbn [Z_of_bool]. lia.
Qed.

Lemma sum_bool_count l :
  sum_bool l = Z.of_nat (length (filter (fun b : bool => b = true) l)).
Proof. unfold sum_bool. now rewrite sum_bool_from. Qed.

(** The test [total > players_per_group / 2] on an integer tally. *)
Lemma majority_test total :
  Qltb (inject_Z Constants.players_per_group / 2) (inject_Z total) = true <-> 2 <= total.
Proof.
  rewrite Qltb_lt. unfold Qlt, Constants.players_per_group. cbn. lia.
Qed.

Lemma fair_total_positive : Qle_bool (1 + 1) 0 = false.
Proof. reflexivity. Qed.

Lemma votes_on_record ps votes (r : RandomState) :
  map Player.if_vote ps = map Some votes ->
  mapM (fun p => field "if_vote" (Player.if_vote p)) ps r = (inr votes, r).
Proof.
  revert votes. induction ps as [|p ps IH]; intros [|v vs] Hv; try discriminate;
    [reflexivity|].
  injection Hv as Hp Hv. cbn [mapM]. rewrite Hp.
  rewrite (bind_ok _ _ _ _ _ (field_ok _ _ _)), (bind_ok _ _ _ _ _ (IH _ Hv)).
  reflexivity.
Qed.

(** C3. [assign_treatment] records the number of yes votes in
    [total_if_vote].  When the override draw does not land on 1, the
    treatment is EndoYes exactly when strictly more than half of the three
    players (2 or 3) voted yes and EndoNo otherwise, and [if_override] is
    false.  When the override draw lands on 1, the treatment is ExoYes or
    ExoNo as a second draw decides, whatever the votes are, [if_override] is
    true, and [total_if_vote] still holds the tally. *)
Theorem assign_treatment_outcome
    (g : Group.t) (ps : list Player.t) (r : RandomState) (votes : list bool) :
  length ps = 3%nat ->
  map Player.if_vote ps = map Some votes ->
  let tally := Z.of_nat (length (filter (fun b : bool => b = true) votes)) in
  let override := pick 1 1 (next_sample r) in
  let second := pick 1 1 (next_sample (advance r)) in
  exists g' r',
    assign_treatment g ps r = (inr g', r') /\
    Group.total_if_vote g' = Some tally /\
    (Z.of_nat (length ps) < 2 * tally <-> tally = 2 \/ tally = 3) /\
    (override <> 1 ->
     r' = advance r /\
     Group.if_override g' = Some false /\
     (Z.of_nat (length ps) < 2 * tally -> Group.treatment g' = Some "EndoYes") /\
     (2 * tally <= Z.of_nat (length ps) -> Group.treatment g' = Some "EndoNo")) /\
    (override = 1 ->
     r' = advance (advance r) /\
     Group.if_override g' = Some true /\
     Group.treatment g' = Some (if second =? 1 then "ExoYes" else "ExoNo")).
Proof.
  intros Hlen Hvotes tally override second.
  assert (Hbound : 0 <= tally <= 3).
  { subst tally. pose proof (length_filter (fun b : bool => b = true) votes) as Hle.
    apply (f_equal (@length _)) in Hvotes. rewrite !length_map in Hvotes. lia. }
  pose proof (majority_test tally) as Hmaj.
  unfold assign_treatment.
  rewrite (bind_ok _ _ _ _ _ (votes_on_record _ _ _ Hvotes)).
  cbn [Group.total_if_vote Group.set_total_if_vote].
  rewrite (bind_ok _ _ _ _ _ (field_ok _ _ _)).
  rewrite sum_bool_count. fold tally.
  rewrite (bind_ok _ _ _ _ _ (choices_two _ _ _ fair_total_positive)).
  cbn [lookup list_lookup]. rewrite (bind_ok _ _ _ _ _ (field_ok _ _ _)).
  fold override. rewrite Hlen.
  destruct (Z.eqb_spec override 1) as [Hov | Hov].
  - rewrite (bind_ok _ _ _ _ _ (choices_two _ _ _ fair_total_positive)).
    cbn [lookup list_lookup]. rewrite (bind_ok _ _ _ _ _ (field_ok _ _ _)).
    fold second.
    destruct (second =? 1), (Qltb _ _);
      (eexists _, _; split; [reflexivity|]; split; [reflexivity|];
       split; [cbn; lia|]; split; [contradiction|];
       intros _; repeat split; reflexivity).
  - destruct (Qltb _ _) eqn:E;
      (eexists _, _; split; [reflexivity|]; split; [reflexivity|];
       split; [cbn; lia|]; split; [|contradiction];
       intros _; split; [reflexivity|]; split; [reflexivity|]).
    + split; [reflexivity|]. pose proof (proj1 Hmaj eq_refl). cbn. lia.
    + split; [|reflexivity]. intros Hlt.
      assert (Ht : 2 <= tally) by (cbn in Hlt; lia).
      apply Hmaj in Ht. discriminate.
Qed.

(** Votes yes, yes, no. *)
Lemma assign_treatment_outcome_witness :
  exists g' r',
    assign_treatment Group.empty
      [Player.set_if_vote true (Player.fresh 1 1);
       Player.set_if_vote true (Player.fresh 2 2);
       Player.set_if_vote false (Player.fresh 3 3)] example_random = (inr g', r') /\
    Group.total_if_vote g' = Some 2.
Proof.
  destruct (assign_treatment_outcome Group.empty
              [Player.set_if_vote true (Player.fresh 1 1);
               Player.set_if_vote true (Player.fresh 2 2);
               Player.set_if_vote false (Player.fresh 3 3)]
              example_random [true; true; false])
    as (g' & r' & Hrun & Htally & _); [reflexivity | reflexivity |].
  exists g', r'. split; [exact Hrun | exact Htally].
Defined.

(** ** End of the puzzle page *)

Lemma in_round_ok r s g :
  Stage.groups s !! r = Some g -> in_round r s = (inr g, s).
Proof. intros Hg. unfold in_round, mbind, M_bind, get. now rewrite Hg. Qed.

Lemma update_group_ok f s g :
  Stage.groups s !! Stage.round_number s = Some g ->
  update_group f s
  = (inr tt, Stage.set_groups (<[Stage.round_number s := f g]> (Stage.groups s)) s).
Proof.
  intros Hg. unfold update_group.
  rewrite (bind_ok _ _ s s s) by reflexivity.
  rewrite (bind_ok _ _ _ _ _ (in_round_ok _ _ _ Hg)). reflexivity.
Qed.

Lemma update_player_ok f s :
  update_player f s = (inr tt, Stage.set_player (f (Stage.player s)) s).
Proof. reflexivity. Qed.

(** Before the vote round, when the guard lets the submission through, the
    hook returns with the income written and the default audit weight. *)
Lemma before_next_page_early params timeout_happened s g :
  negb timeout_happened && negb (truthy (Params.max_iterations params)) = false ->
  Stage.groups s !! Stage.round_number s = Some g ->
  Stage.round_number s < Constants.vote_round ->
  before_next_page params timeout_happened s
  = (inr tt,
     Stage.set_groups
       (<[Stage.round_number s := Group.set_audit_weight Constants.default_audit_prob g]>
          (Stage.groups s))
       (Stage.set_player (finalized_player (Stage.player s)) s)).
Proof.
  intros Hguard Hg Hround. unfold before_next_page. rewrite Hguard.
  rewrite (bind_ok _ _ s s s) by reflexivity.
  rewrite (bind_ok _ _ _ _ _ (update_player_ok _ _)).
  apply Z.ltb_lt in Hround. rewrite Hround.
  set (s1 := Stage.set_player _ s).
  rewrite (update_group_ok _ s1 g Hg). reflexivity.
Qed.

(** From the vote round on, the hook copies the treatment of the vote round
    and derives the audit weight from it; only this round's group record
    changes. *)
Lemma before_next_page_late params timeout_happened s g voted :
  negb timeout_happened && negb (truthy (Params.max_iterations params)) = false ->
  Stage.groups s !! Stage.round_number s = Some g ->
  Stage.groups s !! Constants.vote_round = Some voted ->
  Constants.vote_round <= Stage.round_number s ->
  before_next_page params timeout_happened s
  = (inr tt,
     Stage.set_groups
       (<[Stage.round_number s :=
            Group.set_audit_weight (audit_weight_for (Group.treatment voted))
              (Group.set_treatment (Group.treatment voted) g)]>
          (Stage.groups s))
       (Stage.set_player (finalized_player (Stage.player s)) s)).
Proof.
  intros Hguard Hg Hvoted Hround. unfold before_next_page. rewrite Hguard.
  rewrite (bind_ok _ _ s s s) by reflexivity.
  rewrite (bind_ok _ _ _ _ _ (update_player_ok _ _)).
  apply Z.ltb_ge in Hround. rewrite Hround.
  set (s1 := Stage.set_player _ s).
  rewrite (bind_ok _ _ _ _ _ (in_round_ok _ s1 voted Hvoted)).
  rewrite (bind_ok _ _ _ _ _ (update_group_ok _ s1 g Hg)).
  set (s2 := Stage.set_groups _ s1).
  assert (Hg2 : Stage.groups s2 !! Stage.round_number s2
                = Some (Group.set_treatment (Group.treatment voted) g)).
  { subst s2. cbn. apply lookup_insert_eq. }
  rewrite (bind_ok _ _ _ _ _ (in_round_ok _ s2 _ Hg2)).
  cbn [Group.treatment Group.set_treatment]. unfold audit_weight_for.
  destruct (bool_decide _ || bool_decide _);
    rewrite (update_group_ok _ s2 _ Hg2); subst s2 s1; cbn;
    rewrite insert_insert_eq; reflexivity.
Qed.

Lemma audit_weight_for_label label :
  (label = "EndoYes" \/ label = "ExoYes" ->
   audit_weight_for (Some label) = Constants.modified_audit_prob) /\
  (label <> "EndoYes" -> label <> "ExoYes" ->
   audit_weight_for (Some label) = Constants.default_audit_prob).
Proof.
  unfold audit_weight_for. split.
  - intros [-> | ->]; reflexivity.
  - intros H1 H2. rewrite !bool_decide_eq_false_2 by congruence. reflexivity.
Qed.

(** C4. After the vote round, [before_next_page] sets the group's
    [treatment] to the one stored at the vote round, which it reads and leaves
    as it is, and sets [audit_weight] to the modified probability 0.5 when
    that treatment is EndoYes or ExoYes and to the default 0.2 otherwise;
    before the vote round it sets [audit_weight] to the default 0.2. *)
Theorem audit_weight_by_round
    (params : Params.t) (timeout_happened : bool) (s : Stage.t) (g : Group.t) :
  timeout_happened = true \/ truthy (Params.max_iterations params) = true ->
  Stage.groups s !! Stage.round_number s = Some g ->
  (Stage.round_number s < Constants.vote_round ->
   exists s' g',
     before_next_page params timeout_happened s = (inr tt, s') /\
     Stage.groups s' !! Stage.round_number s = Some g' /\
     Group.audit_weight g' = Some 0.2%Q) /\
  (Constants.vote_round < Stage.round_number s ->
   forall voted label,
     Stage.groups s !! Constants.vote_round = Some voted ->
     Group.treatment voted = Some label ->
     exists s' g',
       before_next_page params timeout_happened s = (inr tt, s') /\
       Stage.groups s' !! Stage.round_number s = Some g' /\
       Stage.groups s' !! Constants.vote_round = Some voted /\
       Group.treatment g' = Some label /\
       (label = "EndoYes" \/ label = "ExoYes" -> Group.audit_weight g' = Some 0.5%Q) /\
       (label <> "EndoYes" -> label <> "ExoYes" -> Group.audit_weight g' = Some 0.2%Q)).
Proof.
  intros Hpass Hg.
  assert (Hguard : negb timeout_happened
                   && negb (truthy (Params.max_iterations params)) = false).
  { destruct Hpass as [-> | ->]; [reflexivity | apply andb_false_r]. }
  split.
  - intros Hround. eexists _, _.
    split; [exact (before_next_page_early _ _ _ _ Hguard Hg Hround)|].
    split; [cbn; apply lookup_insert_eq | reflexivity].
  - intros Hround voted label Hvoted Hlabel. eexists _, _.
    split; [apply (before_next_page_late _ _ _ _ _ Hguard Hg Hvoted); lia|].
    split; [cbn; apply lookup_insert_eq|].
    split; [cbn; rewrite lookup_insert_ne by lia; exact Hvoted|].
    split; [exact Hlabel|]. cbn [Group.audit_weight Group.set_audit_weight].
    rewrite Hlabel. destruct (audit_weight_for_label label) as [Hyes Hno].
    split; [intros H; now rewrite (Hyes H) | intros H1 H2; now rewrite (Hno H1 H2)].
Qed.

(** A group in round 3 whose vote round ended with ExoYes. *)
Lemma audit_weight_by_round_witness :
  exists s' g',
    before_next_page Params.defaults true example_stage = (inr tt, s') /\
    Stage.groups s' !! 3 = Some g' /\
    Group.treatment g' = Some "ExoYes" /\
    Group.audit_weight g' = Some 0.5%Q.
Proof.
  destruct (audit_weight_by_round Params.defaults true example_stage Group.empty)
    as [_ Hlate]; [left; reflexivity | reflexivity |].
  destruct (Hlate ltac:(reflexivity) (Group.set_treatment (Some "ExoYes") Group.empty)
              "ExoYes" ltac:(reflexivity) ltac:(reflexivity))
    as (s' & g' & Hrun & Hg' & _ & Hlabel & Hyes & _).
  exists s', g'. repeat split; auto.
Defined.

(** C9, as the source has it.  [before_next_page] raises exactly when no
    timeout happened and [params['max_iterations']] is unset ([None] or 0),
    whatever the player's iteration count; with a timeout, or with a cap
    configured, it proceeds and sets [real_effort_income] to [num_correct]
    times the real-effort multiplier 100. *)
Theorem finalization_guard
    (params : Params.t) (timeout_happened : bool) (s : Stage.t) (g voted : Group.t) :
  Stage.groups s !! Stage.round_number s = Some g ->
  Stage.groups s !! Constants.vote_round = Some voted ->
  (timeout_happened = false -> truthy (Params.max_iterations params) = false ->
   before_next_page params timeout_happened s
   = (inl (RuntimeError "malicious page submission"), s)) /\
  (timeout_happened = true \/ truthy (Params.max_iterations params) = true ->
   exists s',
     before_next_page params timeout_happened s = (inr tt, s') /\
     Player.real_effort_income (Stage.player s')
     = Some (inject_Z (Player.num_correct (Stage.player s) * 100))).
Proof.
  intros Hg Hvoted. split.
  - intros -> Hcap. unfold before_next_page. rewrite Hcap. reflexivity.
  - intros Hpass.
    assert (Hguard : negb timeout_happened
                     && negb (truthy (Params.max_iterations params)) = false).
    { destruct Hpass as [-> | ->]; [reflexivity | apply andb_false_r]. }
    destruct (Z.lt_ge_cases (Stage.round_number s) Constants.vote_round) as [Hround | Hround].
    + eexists. split; [exact (before_next_page_early _ _ _ _ Hguard Hg Hround)|].
      reflexivity.
    + eexists. split; [exact (before_next_page_late _ _ _ _ _ Hguard Hg Hvoted Hround)|].
      reflexivity.
Qed.

(** A submission after a timeout in round 3. *)
Lemma finalization_guard_witness :
  exists s',
    before_next_page Params.defaults true example_stage = (inr tt, s') /\
    Player.real_effort_income (Stage.player s') = Some 400%Q.
Proof.
  destruct (finalization_guard Params.defaults true example_stage Group.empty
              (Group.set_treatment (Some "ExoYes") Group.empty))
    as [_ Hpass]; [reflexivity | reflexivity |].
  destruct (Hpass (or_introl eq_refl)) as (s' & Hrun & Hincome).
  exists s'. split; [exact Hrun | exact Hincome].
Defined.

(** With a cap of five puzzles, a player who has had two and submits without
    a timeout is let through: the guard looks at whether a cap is configured,
    not at whether it is reached. *)
Lemma finalization_guard_counterexample :
  ~ refuses_unfinished capped_params early_stage.
Proof.
  unfold refuses_unfinished. intros Hclaim.
  destruct Hclaim as [e He]; [discriminate|].
  vm_compute in He. discriminate.
Qed.

(** ** The live protocol *)

Section LiveProperties.
Context {task_module : TaskModule}.
Variable encode_image : string -> string.
Variable DEBUG : bool.
Variable params : Params.t.

Local Abbreviation handle := (play_game encode_image DEBUG params).
Local Abbreviation handle_all := (run encode_image DEBUG params).

Lemma time_time_ok w : time_time w = (inr (now_of w), ticked w).
Proof. reflexivity. Qed.

Lemma get_current_puzzle_idle w :
  current_of w = [] -> get_current_puzzle w = (inr None, w).
Proof.
  intros H. unfold get_current_puzzle, mbind, M_bind, the_player, get.
  unfold current_of in H. now rewrite H.
Qed.

Lemma get_current_puzzle_one w z :
  current_of w = [z] -> get_current_puzzle w = (inr (Some z), w).
Proof.
  intros H. unfold get_current_puzzle, mbind, M_bind, the_player, get.
  unfold current_of in H. now rewrite H.
Qed.

(** A [next] message reaches the branch for it, with the puzzle found. *)
Lemma play_game_next m w z :
  Message.type m = "next" ->
  current_of w = [z] ->
  handle m w
  = on_next encode_image params (Player.id_in_group (World.player w)) (now_of w)
      (Some z) (ticked w).
Proof.
  intros Htype Hcur. unfold play_game.
  rewrite (bind_ok _ _ w (World.player w) w) by reflexivity.
  rewrite (bind_ok _ _ _ _ _ (time_time_ok w)).
  rewrite (bind_ok _ _ _ _ _ (get_current_puzzle_one (ticked w) z Hcur)).
  rewrite Htype. reflexivity.
Qed.

(** An [answer] message reaches the branch for it, with the puzzle found. *)
Lemma play_game_answer m w z :
  Message.type m = "answer" ->
  current_of w = [z] ->
  handle m w
  = on_answer params (Player.id_in_group (World.player w)) (now_of w)
      (Some z) m (ticked w).
Proof.
  intros Htype Hcur. unfold play_game.
  rewrite (bind_ok _ _ w (World.player w) w) by reflexivity.
  rewrite (bind_ok _ _ _ _ _ (time_time_ok w)).
  rewrite (bind_ok _ _ _ _ _ (get_current_puzzle_one (ticked w) z Hcur)).
  rewrite Htype. reflexivity.
Qed.

Lemma next_unanswered m w i current :
  Message.type m = "next" ->
  current_of w = [(i, current)] ->
  Puzzle.response current = None ->
  handle m w = (skipping, ticked w).
Proof.
  intros Htype Hcur Hresp. rewrite (play_game_next _ _ _ Htype Hcur).
  unfold on_next. rewrite Hresp. reflexivity.
Qed.

(** C8. While the current puzzle is issued and unanswered, every [next]
    message fails with the error for skipping an unsolved puzzle, however
    often it is repeated: no puzzle is created, the iteration counter and the
    rest of the player record stay as they are, and the puzzle is still the
    current, unanswered one. *)
Theorem next_fails_until_answered
    (messages : list Message.t) (w : World.t) (i : nat) (current : Puzzle.t) :
  current_of w = [(i, current)] ->
  Puzzle.response current = None ->
  Forall (fun m => Message.type m = "next") messages ->
  exists w',
    handle_all messages w = (map (fun _ => skipping) messages, w') /\
    World.player w' = World.player w /\
    World.puzzles w' = World.puzzles w /\
    current_of w' = [(i, current)].
Proof.
  intros Hcur Hresp Hnext. revert w Hcur.
  induction Hnext as [|m messages Hm _ IH]; intros w Hcur.
  - exists w. repeat split; auto.
  - cbn [run map]. rewrite (next_unanswered _ _ _ _ Hm Hcur Hresp).
    destruct (IH (ticked w) Hcur) as (w' & Hrun & Hplayer & Hpuzzles & Hcur').
    exists w'. rewrite Hrun. repeat split; auto.
Qed.

Lemma generate_puzzle_ok w :
  exists z w',
    generate_puzzle w = (inr (length (World.puzzles w), z), w') /\
    World.puzzles w' = World.puzzles w ++ [z] /\
    World.player w'
    = Player.set_iteration (Player.iteration (World.player w) + 1) (World.player w) /\
    Puzzle.player z = Player.id (World.player w) /\
    Puzzle.iteration z = Player.iteration (World.player w) + 1 /\
    Puzzle.response z = None /\
    Puzzle.timestamp z = now_of w.
Proof.
  unfold generate_puzzle, with_rng, mbind, M_bind, write_player, the_player,
    time_time, Puzzle_create.
  destruct (generate_puzzle_fields (World.rng w)) as [fields r'].
  eexists _, _. repeat split; reflexivity.
Qed.

(** The issue of a puzzle: the tail of the [next] branch. *)
Lemma issue_ok my_id w :
  exists z w',
    issue encode_image my_id w
    = (inr (my_id,
            puzzle (encode_puzzle encode_image z)
              {| p_num_trials := Player.num_trials (World.player w);
                 p_num_correct := Player.num_correct (World.player w);
                 p_num_incorrect := Player.num_failed (World.player w);
                 p_iteration := Player.iteration (World.player w) + 1 |}), w') /\
    World.puzzles w' = World.puzzles w ++ [z] /\
    World.player w'
    = Player.set_iteration (Player.iteration (World.player w) + 1) (World.player w) /\
    Puzzle.player z = Player.id (World.player w) /\
    Puzzle.iteration z = Player.iteration (World.player w) + 1 /\
    Puzzle.response z = None /\
    Puzzle.timestamp z = now_of w.
Proof.
  destruct (generate_puzzle_ok w) as (z & w' & Hgen & Hrest).
  exists z, w'. split; [|exact Hrest].
  unfold issue. rewrite (bind_ok _ _ _ _ _ Hgen).
  destruct Hrest as (_ & Hplayer & _).
  unfold get_progress, the_player, mbind, M_bind, mret, M_ret. rewrite Hplayer.
  reflexivity.
Qed.


Lemma filter_from_lookup k player_id it store i z :
  In (i, z) (Puzzle.filter_from k player_id it store) ->
  (k <= i)%nat /\ store !! (i - k)%nat = Some z /\ Puzzle.matches player_id it z = true.
Proof.
  revert k. induction store as [|z0 store IH]; intros k Hin; [destruct Hin|].
  cbn [Puzzle.filter_from] in Hin.
  destruct (Puzzle.matches player_id it z0) eqn:Hm.
  - destruct Hin as [[= <- <-] | Hin].
    + rewrite Nat.sub_diag. repeat split; auto.
    + destruct (IH _ Hin) as (Hle & Hlook & Hz). repeat split; [lia | | exact Hz].
      replace (i - k)%nat with (S (i - S k)) by lia. exact Hlook.
  - destruct (IH _ Hin) as (Hle & Hlook & Hz). repeat split; [lia | | exact Hz].
    replace (i - k)%nat with (S (i - S k)) by lia. exact Hlook.
Qed.

(** The row found as the current puzzle is the row at its position, and it
    belongs to the player at the player's iteration. *)
Lemma current_row w i z :
  current_of w = [(i, z)] ->
  World.puzzles w !! i = Some z /\
  Puzzle.player z = Player.id (World.player w) /\
  Puzzle.iteration z = Player.iteration (World.player w).
Proof.
  intros Hcur.
  destruct (filter_from_lookup 0 (Player.id (World.player w))
              (Player.iteration (World.player w)) (World.puzzles w) i z)
    as (_ & Hlook & Hm).
  { unfold current_of, Puzzle.filter in Hcur. rewrite Hcur. now left. }
  rewrite Nat.sub_0_r in Hlook. split; [exact Hlook|].
  unfold Puzzle.matches in Hm. apply andb_true_iff in Hm as [Hp Hi].
  apply Nat.eqb_eq in Hp. apply Z.eqb_eq in Hi. auto.
Qed.

(** Replacing a row moves it from the rows that pass a test to the rows that
    do not, or back, and touches no other row. *)
Lemma count_insert {A} (f : A -> bool) (l : list A) i (a a' : A) :
  l !! i = Some a ->
  (count f (<[i := a']> l) + (if f a then 1 else 0)
   = count f l + (if f a' then 1 else 0))%nat.
Proof.
  revert i. induction l as [|b l IH]; intros [|i] Hi; try discriminate.
  - injection Hi as ->. cbn. destruct (f a), (f a'); lia.
  - change (<[S i := a']> (b :: l)) with (b :: <[i := a']> l).
    specialize (IH i Hi). cbn [count]. destruct (f b), (f a), (f a'); lia.
Qed.

(** The reversal of the previous attempt on a valid retry. *)
Lemma undo_last_retry now current previous answered w :
  Puzzle.response current = Some previous ->
  Puzzle.response_timestamp current = Some answered ->
  Puzzle.attempts current < Params.attempts_per_puzzle params ->
  (answered + Params.retry_delay params <= now)%Q ->
  undo_last params now current w
  = (inr tt,
     World.set_player
       (let p := Player.set_num_trials (Player.num_trials (World.player w) - 1)
                   (World.player w) in
        if bool_decide (Puzzle.is_correct current = Some true)
        then Player.set_num_correct (Player.num_correct p - 1) p
        else Player.set_num_failed (Player.num_failed p - 1) p) w).
Proof.
  intros Hresp Hstamp Hleft Hdelay. unfold undo_last. rewrite Hresp, Hstamp.
  rewrite bool_decide_eq_false_2 by discriminate.
  apply Z.leb_gt in Hleft. rewrite Hleft.
  rewrite (bind_ok _ _ _ _ _ (field_ok _ _ _)).
  apply Qltb_ge in Hdelay. rewrite Hdelay.
  unfold mbind, M_bind, write_player.
  destruct (bool_decide _); reflexivity.
Qed.

(** C6. A valid retry of an answered puzzle is judged and answered with a
    feedback message; afterwards [num_trials] is what it was, so the puzzle
    still counts once, and [num_correct] and [num_failed] are what they were
    with the effect of the previous attempt taken back and the effect of the
    new attempt applied.  If the counters counted every answered puzzle once
    under its latest verdict before, they still do. *)
Theorem retry_counts_latest_attempt
    (w : World.t) (i : nat) (current : Puzzle.t)
    (previous answer : string) (answered : Q) :
  current_of w = [(i, current)] ->
  Puzzle.response current = Some previous ->
  Puzzle.response_timestamp current = Some answered ->
  Puzzle.attempts current < Params.attempts_per_puzzle params ->
  (answered + Params.retry_delay params <= now_of w)%Q ->
  answer <> EmptyString ->
  let was := bool_decide (Puzzle.is_correct current = Some true) in
  let verdict := is_correct answer (Puzzle.set_response answer current) in
  exists retries_left progress w',
    handle (answer_message (JString answer)) w
    = (inr (Player.id_in_group (World.player w),
            feedback verdict retries_left progress), w') /\
    Player.num_trials (World.player w') = Player.num_trials (World.player w) /\
    Player.num_correct (World.player w')
    = Player.num_correct (World.player w) - Z_of_bool was + Z_of_bool verdict /\
    Player.num_failed (World.player w')
    = Player.num_failed (World.player w) - Z_of_bool (negb was) + Z_of_bool (negb verdict) /\
    World.puzzles w' !! i
    = Some (Puzzle.set_attempts (Puzzle.attempts current + 1)
              (Puzzle.set_response_timestamp (now_of w)
                 (Puzzle.set_is_correct verdict (Puzzle.set_response answer current)))) /\
    (counts_latest w -> counts_latest w').
Proof.
  intros Hcur Hresp Hstamp Hleft Hdelay Hanswer was verdict.
  destruct (current_row _ _ _ Hcur) as (Hrow & Hmine & _).
  rewrite (play_game_answer (answer_message (JString answer)) _ _ eq_refl Hcur).
  unfold on_answer.
  rewrite (bind_ok _ _ _ _ _
             (undo_last_retry _ _ _ _ (ticked w) Hresp Hstamp Hleft Hdelay)).
  apply String.eqb_neq in Hanswer.
  cbn [Message.answer answer_message].
  fold was.
  unfold mbind, M_bind, write_player, write_puzzle, get_progress, the_player, mret, M_ret.
  rewrite Hanswer. cbn [Puzzle.is_correct Puzzle.set_is_correct Puzzle.set_response_timestamp
                          Puzzle.set_attempts Puzzle.attempts].
  fold verdict.
  assert (Hverdict : bool_decide (Some verdict = Some true) = verdict).
  { destruct verdict; reflexivity. }
  rewrite Hverdict.
  assert (Hlen : (i < length (World.puzzles w))%nat) by (eapply lookup_lt_Some; eauto).
  set (me := Player.id (World.player w)) in *.
  set (latest := Puzzle.set_attempts _ _).
  assert (Hold : answered_by me current = true
                 /\ judged_correct me current = was
                 /\ judged_failed me current = negb was).
  { unfold judged_correct, judged_failed, answered_by.
    rewrite Hmine, Hresp, Nat.eqb_refl. repeat split; reflexivity. }
  assert (Hnew : answered_by me latest = true
                 /\ judged_correct me latest = verdict
                 /\ judged_failed me latest = negb verdict).
  { unfold judged_correct, judged_failed, answered_by. subst latest.
    cbn [Puzzle.player Puzzle.response Puzzle.is_correct Puzzle.set_attempts
         Puzzle.set_response_timestamp Puzzle.set_is_correct Puzzle.set_response].
    rewrite Hmine, Nat.eqb_refl, Hverdict. repeat split; reflexivity. }
  destruct Hold as (Ha & Hc & Hf), Hnew as (Ha' & Hc' & Hf').
  pose proof (count_insert (answered_by me) _ _ _ latest Hrow) as Ct.
  pose proof (count_insert (judged_correct me) _ _ _ latest Hrow) as Cc.
  pose proof (count_insert (judged_failed me) _ _ _ latest Hrow) as Cf.
  rewrite Ha, Ha' in Ct. rewrite Hc, Hc' in Cc. rewrite Hf, Hf' in Cf.
  clearbody latest was verdict. clear Hverdict Ha Hc Hf Ha' Hc' Hf'.
  destruct was, verdict; cbn [negb] in Ct, Cc, Cf;
    (eexists _, _, _; split; [reflexivity|]; unfold ticked;
     cbn [World.player World.puzzles World.set_player World.set_puzzles
          World.set_clock
          Player.num_trials Player.num_correct Player.num_failed Player.id
          Player.set_num_trials Player.set_num_correct Player.set_num_failed
          Z_of_bool negb];
     split; [lia|]; split; [lia|]; split; [lia|];
     split; [apply list_lookup_insert_eq; exact Hlen|];
     unfold counts_latest;
     cbn [World.player World.puzzles World.set_player World.set_puzzles
          World.set_clock
          Player.num_trials Player.num_correct Player.num_failed Player.id
          Player.set_num_trials Player.set_num_correct Player.set_num_failed];
     fold me; intros (Ht & Hcor & Hfail); repeat split; lia).
Qed.

(** The retry guards and the reversal write nothing but progress counters. *)
Lemma undo_last_shape now z w out w1 :
  undo_last params now z w = (out, w1) ->
  same_numbering w w1 /\ World.puzzles w1 = World.puzzles w.
Proof.
  unfold undo_last, same_numbering.
  destruct (bool_decide (Puzzle.response z = None)).
  { intros [= <- <-]. auto. }
  destruct (Params.attempts_per_puzzle params <=? Puzzle.attempts z).
  { intros [= <- <-]. auto. }
  destruct (Puzzle.response_timestamp z) as [answered|].
  2: { intros [= <- <-]. auto. }
  rewrite (bind_ok _ _ _ _ _ (field_ok _ _ _)).
  destruct (Qltb now (answered + Params.retry_delay params)).
  { intros [= <- <-]. auto. }
  unfold mbind, M_bind, write_player.
  destruct (bool_decide (Puzzle.is_correct z = Some true)); intros [= <- <-]; auto.
Qed.

(** What an [answer] message can do to the world: it issues nothing, keeps
    the player's identity and iteration, and changes at most the contents of
    the current row. *)
Lemma on_answer_shape my_id now current m w out w' :
  (forall i z, current = Some (i, z) -> World.puzzles w !! i = Some z) ->
  on_answer params my_id now current m w = (out, w') ->
  issued out = false /\ same_numbering w w'.
Proof.
  intros Hrow. unfold on_answer.
  destruct current as [[i z]|].
  2: { intros [= <- <-]. split; [reflexivity|]. unfold same_numbering. auto. }
  specialize (Hrow i z eq_refl).
  destruct (undo_last params now z w) as [[e|[]] w1] eqn:Hundo;
    destruct (undo_last_shape _ _ _ _ _ Hundo) as ((Hid & Hit & _) & Hrows).
  { rewrite (bind_err _ _ _ _ _ Hundo). intros [= <- <-].
    split; [reflexivity|]. unfold same_numbering. auto. }
  rewrite (bind_ok _ _ _ _ _ Hundo).
  assert (Hkeep : same_numbering w w1) by (unfold same_numbering; auto).
  destruct (Message.answer m) as [[|answer]|].
  - intros [= <- <-]. auto.
  - unfold mbind at 1, M_bind at 1, mret, M_ret.
    destruct (String.eqb answer EmptyString).
    { intros [= <- <-]. auto. }
    unfold mbind, M_bind, write_player, write_puzzle, get_progress, the_player,
      mret, M_ret.
    cbn [Puzzle.is_correct Puzzle.set_is_correct Puzzle.set_response_timestamp
         Puzzle.set_attempts].
    destruct (bool_decide _); intros [= <- <-];
      (split; [reflexivity|]; unfold same_numbering; cbn; rewrite Hid, Hit, Hrows;
       split; [reflexivity|]; split; [reflexivity|];
       right; eexists i, z, _; repeat split; first [exact Hrow | reflexivity]).
  - intros [= <- <-]. auto.
Qed.

Lemma same_numbering_refl w : same_numbering w w.
Proof. unfold same_numbering. auto. Qed.

Lemma same_numbering_ticked w : same_numbering w (ticked w).
Proof. unfold same_numbering. auto. Qed.

(** What a [next] message can do to the world: refuse or report the cap and
    change nothing, or issue one puzzle. *)
Lemma on_next_shape my_id now current w out w' :
  on_next encode_image params my_id now current w = (out, w') ->
  (issued out = false /\ same_numbering w w') \/ (issued out = true /\ one_issued w w').
Proof.
  assert (Hissue : forall out w',
             issue encode_image my_id w = (out, w') ->
             issued out = true /\ one_issued w w').
  { intros out0 w0 Hrun. destruct (issue_ok my_id w)
      as (z & w1 & Hrun1 & Hrows & Hplayer & Hmine & Hit & _).
    rewrite Hrun1 in Hrun. injection Hrun as <- <-.
    split; [reflexivity|]. exists z. auto. }
  unfold on_next. destruct current as [[i z]|]; [|intros H; right; eauto].
  destruct (bool_decide (Puzzle.response z = None)).
  { intros [= <- <-]. left. auto using same_numbering_refl. }
  destruct (Qltb now _).
  { intros [= <- <-]. left. auto using same_numbering_refl. }
  destruct (bool_decide _); [|intros H; right; eauto].
  intros [= <- <-]. left. auto using same_numbering_refl.
Qed.

Lemma get_current_puzzle_cases w :
  exists out,
    get_current_puzzle w = (out, w) /\
    forall i z, out = inr (Some (i, z)) -> World.puzzles w !! i = Some z.
Proof.
  unfold get_current_puzzle, mbind, M_bind, the_player, get.
  destruct (Puzzle.filter _ _ _) as [|[i z] [|? ?]] eqn:Hcur;
    eexists; (split; [reflexivity|]); intros i' z' [=]; subst.
  apply (current_row w), Hcur.
Qed.

(** Every invocation of the handler either leaves the numbering of the
    puzzles as it is, or issues exactly one puzzle; it reports a puzzle in
    the second case only. *)
Lemma play_game_shape m w out w' :
  handle m w = (out, w') ->
  (issued out = false /\ same_numbering w w') \/ (issued out = true /\ one_issued w w').
Proof.
  unfold play_game.
  rewrite (bind_ok _ _ w (World.player w) w) by reflexivity.
  rewrite (bind_ok _ _ _ _ _ (time_time_ok w)).
  destruct (get_current_puzzle_cases (ticked w)) as ([e|current] & Hcur & Hrow).
  { rewrite (bind_err _ _ _ _ _ Hcur). intros [= <- <-]. left.
    split; [reflexivity | apply same_numbering_ticked]. }
  rewrite (bind_ok _ _ _ _ _ Hcur).
  destruct (String.eqb (Message.type m) "load").
  { unfold get_progress, the_player, mbind, M_bind, mret, M_ret.
    destruct current as [[i z]|]; intros [= <- <-]; left;
      (split; [reflexivity | apply same_numbering_ticked]). }
  destruct (String.eqb (Message.type m) "cheat" && DEBUG).
  { destruct current as [[i z]|]; intros [= <- <-]; left;
      (split; [reflexivity | apply same_numbering_ticked]). }
  destruct (String.eqb (Message.type m) "next").
  { intros Hrun. exact (on_next_shape _ _ _ (ticked w) _ _ Hrun). }
  destruct (String.eqb (Message.type m) "answer").
  { intros Hrun. left.
    refine (on_answer_shape _ _ current m (ticked w) _ _ _ Hrun).
    intros i z ->. exact (Hrow i z eq_refl). }
  intros [= <- <-]. left. split; [reflexivity | apply same_numbering_ticked].
Qed.

Lemma length_filter_from k player_id it store :
  length (Puzzle.filter_from k player_id it store)
  = count (Puzzle.matches player_id it) store.
Proof.
  revert k. induction store as [|z store IH]; intros k; [reflexivity|].
  cbn [Puzzle.filter_from count]. destruct (Puzzle.matches player_id it z); cbn [length];
    now rewrite IH.
Qed.

Lemma count_app {A} (f : A -> bool) (l l' : list A) :
  count f (l ++ l') = (count f l + count f l')%nat.
Proof.
  induction l as [|a l IH]; [reflexivity|].
  cbn [app count]. destruct (f a); lia.
Qed.

Lemma copies_count w it :
  copies w it = count (Puzzle.matches (Player.id (World.player w)) it) (World.puzzles w).
Proof. apply length_filter_from. Qed.

Lemma same_numbering_copies w w' it :
  same_numbering w w' -> copies w' it = copies w it.
Proof.
  intros (Hid & _ & [Hrows | (i & z & z' & Hrow & Hrows & Hp & Hi)]);
    rewrite !copies_count, Hid, Hrows; [reflexivity|].
  pose proof (count_insert (Puzzle.matches (Player.id (World.player w)) it)
                _ _ _ z' Hrow) as Hcount.
  assert (Heq : Puzzle.matches (Player.id (World.player w)) it z'
                = Puzzle.matches (Player.id (World.player w)) it z).
  { unfold Puzzle.matches. now rewrite Hp, Hi. }
  rewrite Heq in Hcount. destruct (Puzzle.matches _ it z); lia.
Qed.

Lemma same_numbering_well_numbered w w' :
  same_numbering w w' -> well_numbered w -> well_numbered w'.
Proof.
  intros Hsame Hw it. rewrite (same_numbering_copies _ _ it Hsame).
  destruct Hsame as (_ & -> & _). apply Hw.
Qed.

Lemma one_issued_well_numbered w w' :
  one_issued w w' -> well_numbered w -> well_numbered w'.
Proof.
  intros (z & Hrows & Hplayer & Hmine & Hit) Hw it.
  rewrite copies_count, Hrows, Hplayer, count_app.
  cbn [Player.id Player.iteration Player.set_iteration count].
  rewrite <- copies_count. destruct (Hw it) as [Hone Hnone].
  unfold Puzzle.matches. rewrite Hmine, Hit, Nat.eqb_refl. cbn [andb].
  destruct (Z.eqb_spec (Player.iteration (World.player w) + 1) it) as [<- | Hne].
  - rewrite Hnone by lia. split; [lia | intros; lia].
  - split; [lia|]. intros Hlt. rewrite Hnone by lia. reflexivity.
Qed.

(** Over any sequence of messages the numbering stays well formed, and the
    iteration counter goes up by the number of puzzles issued. *)
Lemma run_numbering messages w :
  well_numbered w ->
  well_numbered (snd (handle_all messages w)) /\
  Player.iteration (World.player (snd (handle_all messages w)))
  = Player.iteration (World.player w)
    + Z.of_nat (count issued (fst (handle_all messages w))).
Proof.
  revert w. induction messages as [|m messages IH]; intros w Hw.
  - cbn. split; [exact Hw | lia].
  - cbn [run]. destruct (handle m w) as [out w1] eqn:Hstep.
    destruct (play_game_shape _ _ _ _ Hstep) as [[Hout Hsame] | [Hout Hissued]].
    + specialize (IH w1 (same_numbering_well_numbered _ _ Hsame Hw)).
      destruct (handle_all messages w1) as [outs w2]. cbn [fst snd count] in *.
      rewrite Hout. destruct Hsame as (_ & <- & _). exact IH.
    + specialize (IH w1 (one_issued_well_numbered _ _ Hissued Hw)).
      destruct (handle_all messages w1) as [outs w2]. cbn [fst snd count] in *.
      rewrite Hout. destruct IH as [IHw IHit]. split; [exact IHw|].
      rewrite IHit. destruct Hissued as (z & _ & -> & _). cbn. lia.
Qed.

(** A player without rows in the store is well numbered. *)
Lemma fresh_well_numbered w :
  0 <= Player.iteration (World.player w) ->
  Forall (fun z => Puzzle.player z <> Player.id (World.player w)) (World.puzzles w) ->
  well_numbered w.
Proof.
  intros _ Hnone it. rewrite copies_count.
  assert (Hzero : count (Puzzle.matches (Player.id (World.player w)) it) (World.puzzles w)
                  = 0%nat).
  { induction Hnone as [|z store Hz _ IH]; [reflexivity|].
    cbn [count]. unfold Puzzle.matches at 1.
    apply Nat.eqb_neq in Hz. rewrite Hz. exact IH. }
  rewrite Hzero. split; [lia | reflexivity].
Qed.

(** C7. From a player who has been issued nothing, and over every sequence
    of messages, the player's [iteration] is the number of puzzles issued,
    and at most one row of the store belongs to the player at that
    iteration. *)
Theorem iteration_counts_issues (messages : list Message.t) (w : World.t) :
  Player.iteration (World.player w) = 0 ->
  Forall (fun z => Puzzle.player z <> Player.id (World.player w)) (World.puzzles w) ->
  let outs := fst (handle_all messages w) in
  let w' := snd (handle_all messages w) in
  Player.iteration (World.player w') = Z.of_nat (count issued outs) /\
  (length (current_of w') <= 1)%nat.
Proof.
  intros Hzero Hnone outs w'.
  assert (Hw : well_numbered w) by (apply fresh_well_numbered; [lia | exact Hnone]).
  destruct (run_numbering messages w Hw) as [Hw' Hit].
  fold w' in Hw', Hit. fold outs in Hit. split; [lia|].
  exact (proj1 (Hw' (Player.iteration (World.player w')))).
Qed.

(** An [answer] message when no puzzle is current. *)
Lemma play_game_answer_idle m w :
  Message.type m = "answer" ->
  current_of w = [] ->
  handle m w = (inl (RuntimeError "trying to answer no puzzle"), ticked w).
Proof.
  intros Htype Hcur. unfold play_game.
  rewrite (bind_ok _ _ w (World.player w) w) by reflexivity.
  rewrite (bind_ok _ _ _ _ _ (time_time_ok w)).
  rewrite (bind_ok _ _ _ _ _ (get_current_puzzle_idle (ticked w) Hcur)).
  rewrite Htype. reflexivity.
Qed.

(** The refusals of an [answer] message that come before any write: no
    current puzzle, no attempt left, a retry before the retry delay, and an
    empty or absent answer to a puzzle that has no response yet.  The world is
    as it was, up to the clock. *)
Lemma answer_refused_before_writes m w :
  Message.type m = "answer" ->
  (current_of w = [] ->
   handle m w = (inl (RuntimeError "trying to answer no puzzle"), ticked w)) /\
  (forall i z,
      current_of w = [(i, z)] ->
      Puzzle.response z <> None ->
      Params.attempts_per_puzzle params <= Puzzle.attempts z ->
      handle m w = (inl (RuntimeError "no more attempts allowed"), ticked w)) /\
  (forall i z answered,
      current_of w = [(i, z)] ->
      Puzzle.response z <> None ->
      Puzzle.attempts z < Params.attempts_per_puzzle params ->
      Puzzle.response_timestamp z = Some answered ->
      (now_of w < answered + Params.retry_delay params)%Q ->
      handle m w = (too_fast, ticked w)) /\
  (forall i z,
      current_of w = [(i, z)] ->
      Puzzle.response z = None ->
      Message.answer m = None \/ Message.answer m = Some JNull
      \/ Message.answer m = Some (JString EmptyString) ->
      exists e, handle m w = (inl e, ticked w)).
Proof.
  intros Htype. split; [exact (play_game_answer_idle m w Htype)|].
  split; [|split].
  - intros i z Hcur Hresp Hnone.
    rewrite (play_game_answer _ _ _ Htype Hcur). unfold on_answer, undo_last.
    rewrite bool_decide_eq_false_2 by exact Hresp.
    apply Z.leb_le in Hnone. rewrite Hnone. reflexivity.
  - intros i z answered Hcur Hresp Hleft Hstamp Hearly.
    rewrite (play_game_answer _ _ _ Htype Hcur). unfold on_answer, undo_last.
    rewrite bool_decide_eq_false_2 by exact Hresp.
    apply Z.leb_gt in Hleft. rewrite Hleft, Hstamp.
    apply Qltb_lt in Hearly.
    unfold mbind, M_bind, field, mret, M_ret. rewrite Hearly. reflexivity.
  - intros i z Hcur Hresp Hbogus.
    rewrite (play_game_answer _ _ _ Htype Hcur). unfold on_answer, undo_last.
    rewrite Hresp. rewrite bool_decide_eq_true_2 by reflexivity.
    unfold mbind, M_bind, mret, M_ret.
    destruct Hbogus as [-> | [-> | ->]]; eexists; reflexivity.
Qed.

End LiveProperties.

(** Two [next] messages in a row on a puzzle that was just issued. *)
Lemma next_fails_until_answered_witness :
  exists w',
    run (task_module := sample_task) (fun image => image) false Params.defaults
      [next_message; next_message] issued_world
    = ([skipping; skipping], w') /\
    World.player w' = World.player issued_world.
Proof.
  destruct (next_fails_until_answered (task_module := sample_task) (fun image => image)
              false Params.defaults [next_message; next_message] issued_world
              0%nat issued_puzzle)
    as (w' & Hrun & Hplayer & _);
    [reflexivity | reflexivity | repeat constructor |].
  exists w'. split; [exact Hrun | exact Hplayer].
Defined.



(** A second attempt, two seconds after a first one that was correct. *)
Lemma retry_counts_latest_attempt_witness :
  exists retries_left progress w',
    retry_game (answer_message (JString "xyz")) retry_world
    = (inr (1%nat, feedback false retries_left progress), w') /\
    Player.num_trials (World.player w') = 1 /\
    Player.num_correct (World.player w') = 0 /\
    Player.num_failed (World.player w') = 1.
Proof.
  destruct (retry_counts_latest_attempt (task_module := sample_task) (fun image => image)
              false retry_params retry_world 0%nat answered_puzzle "abc" "xyz" 10%Q)
    as (retries_left & progress & w' & Hrun & Htrials & Hcorrect & Hfailed & _);
    [reflexivity | reflexivity | reflexivity | reflexivity
     | unfold Qle; simpl; lia | discriminate |].
  exists retries_left, progress, w'. auto.
Defined.

(** A run of nine messages, three of which are refused. *)
Lemma iteration_counts_issues_witness :
  Player.iteration
    (World.player
       (snd (run (task_module := sample_task) (fun image => image) false retry_params
               example_messages fresh_world)))
  = Z.of_nat
      (count issued
         (fst (run (task_module := sample_task) (fun image => image) false retry_params
                 example_messages fresh_world))).
Proof.
  apply (iteration_counts_issues (task_module := sample_task) (fun image => image)
           false retry_params example_messages fresh_world);
    [reflexivity | repeat constructor; discriminate].
Defined.

(** C10, on the source.  A retry with an empty answer, sent when a retry is
    allowed, is refused with the error for a bogus answer, but only after the
    counters of the previous attempt were taken back: [num_trials] and
    [num_correct] go from 1 to 0 although the puzzle still holds the first,
    correct response. *)
Theorem bogus_retry_loses_progress :
  let '(out, w') := retry_game (answer_message (JString EmptyString)) retry_world in
  out = inl (ValueError "bogus answer") /\
  World.puzzles w' = World.puzzles retry_world /\
  Player.num_trials (World.player retry_world) = 1 /\
  Player.num_trials (World.player w') = 0 /\
  Player.num_correct (World.player retry_world) = 1 /\
  Player.num_correct (World.player w') = 0.
Proof. vm_compute. repeat split. Qed.

(** * Further properties *)

(** ** Session set-up *)

(** The four writes of the loop. *)
Lemma creating_session_unfold config :
  creating_session config
  = <["max_iterations" := default VNone (config !! "max_iterations")]>
      (<["attempts_per_puzzle" := default (VInt 1) (config !! "attempts_per_puzzle")]>
         (<["puzzle_delay" := default (VFloat 1.0) (config !! "puzzle_delay")]>
            (<["retry_delay" := default (VFloat 1.0) (config !! "retry_delay")]> ∅))).
Proof. reflexivity. Qed.

(** X1. After [creating_session], [session.params] has exactly the four
    keys of [defaults].  Each holds the value the session configuration gives
    for it, also when that value is [None], and the default when the
    configuration has no such key; other keys of the configuration are not
    taken over. *)
Theorem creating_session_params (config : gmap string value) (k : string) :
  creating_session config !! k
  = if is_param k then Some (default (default_of k) (config !! k)) else None.
Proof.
  rewrite creating_session_unfold. unfold is_param.
  destruct (decide (k = "max_iterations")) as [-> | H1];
    [rewrite lookup_insert_eq; reflexivity|].
  rewrite lookup_insert_ne by congruence.
  destruct (decide (k = "attempts_per_puzzle")) as [-> | H2];
    [rewrite lookup_insert_eq; reflexivity|].
  rewrite lookup_insert_ne by congruence.
  destruct (decide (k = "puzzle_delay")) as [-> | H3];
    [rewrite lookup_insert_eq; reflexivity|].
  rewrite lookup_insert_ne by congruence.
  destruct (decide (k = "retry_delay")) as [-> | H4];
    [rewrite lookup_insert_eq; reflexivity|].
  rewrite lookup_insert_ne by congruence. rewrite lookup_empty.
  rewrite bool_decide_eq_false_2; [reflexivity|].
  rewrite !elem_of_cons, elem_of_nil. intuition congruence.
Qed.

(** ** More on settlement *)

(** A loop whose body moves the state by a fixed step: the result at each
    position is related to the element there and to the state the body met. *)
Lemma mapM_steps {St A B} (f : A -> M St B) (step : St -> St)
    (P : A -> Prop) (R : St -> A -> B -> Prop) l :
  (forall a s, P a -> exists b, f a s = (inr b, step s) /\ R s a b) ->
  Forall P l ->
  forall s, exists bs,
    mapM f l s = (inr bs, Nat.iter (length l) step s) /\
    length bs = length l /\
    forall i a b, l !! i = Some a -> bs !! i = Some b -> R (Nat.iter i step s) a b.
Proof.
  intros Hf. induction 1 as [|a l Ha _ IH]; intros s.
  - exists []. repeat split; auto. intros i a b Hi. destruct i; discriminate.
  - destruct (Hf a s Ha) as (b & Hb & HR).
    destruct (IH (step s)) as (bs & Hbs & Hlen & Hall).
    exists (b :: bs). split; [|split].
    + cbn [mapM]. rewrite (bind_ok _ _ _ _ _ Hb), (bind_ok _ _ _ _ _ Hbs).
      cbn [length]. rewrite Nat.iter_succ_r. reflexivity.
    + cbn [length]. now rewrite Hlen.
    + intros [|i] a' b' Ha' Hb'.
      * injection Ha' as <-. injection Hb' as <-. exact HR.
      * rewrite Nat.iter_succ_r. exact (Hall i a' b' Ha' Hb').
Qed.

Lemma iter_advance n r : Nat.iter n advance r = advanced n r.
Proof.
  induction n as [|n IH].
  - unfold advanced. destruct r. cbn. now rewrite Nat.add_0_r.
  - change (Nat.iter (S n) advance r) with (advance (Nat.iter n advance r)).
    rewrite IH. unfold advance, advanced. cbn. f_equal. lia.
Qed.

(** The audit draw at weight [w] lands on 1 exactly when the sample is below
    [w]. *)
Lemma pick_audit w u :
  (pick w (1 - w) u = 1 <-> (u < w)%Q) /\ (pick w (1 - w) u = 0 <-> (w <= u)%Q).
Proof.
  assert (Hu : (u * (w + (1 - w)) == u)%Q) by ring.
  unfold pick. destruct (Qltb _ w) eqn:E.
  - apply Qltb_lt in E. rewrite Hu in E. split; split; auto; try discriminate.
    intros Hle. exfalso. exact (Qlt_not_le _ _ E Hle).
  - apply Qltb_ge in E. rewrite Hu in E. split; split; auto; try discriminate.
    intros Hlt. exfalso. exact (Qlt_not_le _ _ Hlt E).
Qed.

Lemma pay_pure g share p (r : RandomState) :
  Group.individual_share g = Some share ->
  is_Some (Player.real_effort_income p) ->
  is_Some (Player.tax_paid p) ->
  is_Some (Player.reported_income p) ->
  pay g p r = (inr (pay_of share p), r).
Proof.
  intros Hs [real Hreal] [tax Htax] [rep Hrep]. unfold pay, pay_of.
  rewrite Hs, Hreal, Htax, Hrep. destruct (bool_decide _); reflexivity.
Qed.

Section MoreSettlement.
Context {currency : CurrencyType}.

(** X2. [set_payoffs] draws once per player, in the order of the players: the
    player at position [i] is audited exactly when the [i]-th sample after
    the current position of the source is below the group's audit weight,
    and the source ends [len(players)] samples further. *)
Theorem audit_follows_samples
    (g : Group.t) (ps : list Player.t) (r : RandomState) (w : Q)
    (incomes reals : list Q) :
  Group.audit_weight g = Some w ->
  map Player.reported_income ps = map Some incomes ->
  map Player.real_effort_income ps = map Some reals ->
  exists g' ps',
    set_payoffs g ps r = (inr (g', ps'), advanced (length ps) r) /\
    length ps' = length ps /\
    forall i p',
      ps' !! i = Some p' ->
      (Player.if_audited p' = Some 1 <-> (tape r (pos r + i)%nat < w)%Q) /\
      (Player.if_audited p' = Some 0 <-> (w <= tape r (pos r + i)%nat)%Q).
Proof.
  intros Hw Hx Hy.
  pose proof (on_record_ready _ _ _ Hx Hy) as Hready.
  set (taxed := fun (s : RandomState) (p p1 : Player.t) =>
         exists x, Player.reported_income p = Some x /\
           is_Some (Player.real_effort_income p) /\
           p1 = Player.set_if_audited (pick w (1 - w) (next_sample s))
                  (Player.set_tax_paid (Currency (x * Constants.tax_rate)) p)).
  destruct (mapM_steps (tax_and_audit g) advance ready taxed ps) with (s := r)
    as (ps1 & Hloop1 & Hlen1 & Htaxed); [|exact Hready|].
  { intros p s [[x Hx'] Hreal]. eexists. split;
      [exact (tax_and_audit_ok _ _ _ _ _ Hw Hx')|]. exists x. auto. }
  assert (Hfrom : forall i p1, ps1 !! i = Some p1 ->
            exists p, ps !! i = Some p /\ taxed (Nat.iter i advance r) p p1).
  { intros i p1 Hp1. destruct (lookup_lt_is_Some_2 ps i) as [p Hp].
    { rewrite <- Hlen1. eapply lookup_lt_Some; eauto. }
    exists p. split; [exact Hp | exact (Htaxed i p p1 Hp Hp1)]. }
  assert (Hloop2 : mapM (fun p => field (St := RandomState) "tax_paid" (Player.tax_paid p))
                     ps1 (Nat.iter (length ps) advance r)
                   = (inr (map (fun p1 => default 0%Q (Player.tax_paid p1)) ps1),
                      Nat.iter (length ps) advance r)).
  { apply mapM_pure with (P := fun p1 => is_Some (Player.tax_paid p1)).
    - intros p1 s [t Ht]. rewrite Ht. reflexivity.
    - apply Forall_lookup. intros i p1 Hp1.
      destruct (Hfrom i p1 Hp1) as (p & _ & x & _ & _ & ->). eexists; reflexivity. }
  set (total := sum (map (fun p1 => default 0%Q (Player.tax_paid p1)) ps1)).
  set (share := Currency (Currency (total * Constants.redistribution_multiplier)
                          / inject_Z Constants.players_per_group)).
  set (g2 := Group.set_individual_share share (Group.set_total_tax_paid total g)).
  assert (Hloop3 : mapM (pay g2) ps1 (Nat.iter (length ps) advance r)
                   = (inr (map (pay_of share) ps1), Nat.iter (length ps) advance r)).
  { apply mapM_pure with
      (P := fun p1 => is_Some (Player.real_effort_income p1)
                      /\ is_Some (Player.tax_paid p1)
                      /\ is_Some (Player.reported_income p1)).
    - intros p1 s (H1 & H2 & H3). apply pay_pure; auto.
    - apply Forall_lookup. intros i p1 Hp1.
      destruct (Hfrom i p1 Hp1) as (p & _ & x & Hrep & Hreal & ->). cbn.
      repeat split; eauto. }
  exists g2, (map (pay_of share) ps1). split; [|split].
  - unfold set_payoffs.
    rewrite (bind_ok _ _ _ _ _ Hloop1), (bind_ok _ _ _ _ _ Hloop2).
    cbn [Group.total_tax_paid Group.set_total_tax_paid].
    rewrite (bind_ok _ _ _ _ _ (field_ok _ _ _)).
    fold total. fold share. fold g2.
    rewrite (bind_ok _ _ _ _ _ Hloop3). rewrite iter_advance. reflexivity.
  - rewrite length_map. exact Hlen1.
  - intros i p' Hp'. rewrite list_lookup_fmap in Hp'.
    destruct (ps1 !! i) as [p1|] eqn:Hp1; [|discriminate]. injection Hp' as <-.
    destruct (Hfrom i p1 Hp1) as (p & _ & x & _ & _ & ->).
    rewrite iter_advance. unfold next_sample, advanced. cbn.
    destruct (pick_audit w (tape r (pos r + i)%nat)) as [[H1 H2] [H3 H4]].
    split; split.
    + intros [= E]. auto.
    + intros E. f_equal. auto.
    + intros [= E]. auto.
    + intros E. f_equal. auto.
Qed.

(** X3. What an audit costs.  The penalty takes back exactly the income that
    was not reported: an audited player is paid the reported income minus the
    tax paid on it plus the share, whatever was really earned; and a player
    who reports the whole income is paid the same, audited or not.  The tax
    paid is the one on record, the report times 0.4 rounded to the
    currency. *)
Theorem audit_takes_unreported_income
    (g : Group.t) (ps : list Player.t) (r : RandomState) (w : Q)
    (incomes reals : list Q) :
  Group.audit_weight g = Some w ->
  map Player.reported_income ps = map Some incomes ->
  map Player.real_effort_income ps = map Some reals ->
  exists g' ps' r' share,
    set_payoffs g ps r = (inr (g', ps'), r') /\
    Group.individual_share g' = Some share /\
    Forall2
      (fun p p' =>
         exists real reported tax,
           Player.real_effort_income p = Some real /\
           Player.reported_income p = Some reported /\
           Player.tax_paid p' = Some tax /\
           tax = Currency (reported * 0.4) /\
           (Player.if_audited p' = Some 1 ->
            (Player.payoff p' == reported - tax + share)%Q) /\
           ((real == reported)%Q ->
            (Player.payoff p' == real - tax + share)%Q))
      ps ps'.
Proof.
  intros Hw Hx Hy.
  pose proof (on_record_ready _ _ _ Hx Hy) as Hready.
  destruct (set_payoffs_settles g ps r w Hw Hready) as (ps' & r' & Hrun & Hsettled).
  cbv zeta in Hrun, Hsettled.
  eexists _, ps', r', _. split; [exact Hrun|]. split; [reflexivity|].
  eapply Forall2_impl; [exact Hsettled|].
  intros p p' (x & y & a & t & Hrep & Hreal & Ha & -> & ->).
  exists y, x, (Currency (x * Constants.tax_rate)).
  split; [exact Hreal|]. split; [exact Hrep|].
  cbn [Player.if_audited Player.payoff Player.set_payoff Player.set_if_audited
       Player.set_tax_paid Player.tax_paid].
  split; [reflexivity|]. split; [reflexivity|].
  set (share := Currency (Currency _ / _)). clearbody share.
  set (tax := Currency (x * Constants.tax_rate)). clearbody tax.
  unfold Constants.penalty_multiplier, Constants.tax_rate.
  split.
  - intros [= ->]. cbn [Z.eqb Pos.eqb]. field.
  - intros Hsame. destruct Ha as [-> | ->]; cbn [Z.eqb Pos.eqb]; rewrite Hsame; field.
Qed.

(** A loop raises at the first element on which its body raises. *)
Lemma mapM_raises {St A B} (f : A -> M St B) (P : A -> Prop) e l1 a l2 :
  (forall a s, P a -> exists b s', f a s = (inr b, s')) ->
  (forall s, exists s', f a s = (inl e, s')) ->
  Forall P l1 ->
  forall s, exists s', mapM f (l1 ++ a :: l2) s = (inl e, s').
Proof.
  intros Hok Hraise. induction 1 as [|b l1 Hb _ IH]; intros s.
  - destruct (Hraise s) as (s' & Hs'). exists s'. cbn [app mapM].
    now rewrite (bind_err _ _ _ _ _ Hs').
  - destruct (Hok b s Hb) as (b' & s1 & Hb').
    destruct (IH s1) as (s' & Hs'). exists s'. cbn [app mapM].
    now rewrite (bind_ok _ _ _ _ _ Hb'), (bind_err _ _ _ _ _ Hs').
Qed.

(** X4. Edge cases of [set_payoffs].  A group without players settles with a
    total and a share of 0 and draws nothing, even when no audit weight is
    set.  When some player has no reported income, the function raises a
    [TypeError] at the first such player and returns no group.  When the
    audit weight is not set and the first player has a report, it raises a
    [TypeError] as well. *)
Theorem set_payoffs_edge_cases (g : Group.t) (r : RandomState) :
  (exists total share,
      set_payoffs g [] r
      = (inr (Group.set_individual_share share (Group.set_total_tax_paid total g), []), r)
      /\ (total == 0)%Q /\ (share == 0)%Q) /\
  (forall w before p after,
      Group.audit_weight g = Some w ->
      Forall (fun q => is_Some (Player.reported_income q)) before ->
      Player.reported_income p = None ->
      exists r',
        set_payoffs g (before ++ p :: after) r = (inl (TypeError "reported_income"), r')) /\
  (forall p rest,
      Group.audit_weight g = None ->
      is_Some (Player.reported_income p) ->
      set_payoffs g (p :: rest) r = (inl (TypeError "audit_weight"), r)).
Proof.
  split; [|split].
  - eexists _, _. split; [reflexivity|]. split; [reflexivity|].
    apply (Currency_whole _ 0). rewrite (Currency_whole _ 0); reflexivity.
  - intros w before p after Hw Hbefore Hp.
    destruct (mapM_raises (tax_and_audit g)
                (fun q => is_Some (Player.reported_income q))
                (TypeError "reported_income") before p after) with (s := r)
      as (r' & Hloop); [| |exact Hbefore|].
    + intros q s [x Hq]. eexists _, _. exact (tax_and_audit_ok _ _ _ _ _ Hw Hq).
    + intros s. exists s. unfold tax_and_audit. rewrite Hp. reflexivity.
    + exists r'. unfold set_payoffs. now rewrite (bind_err _ _ _ _ _ Hloop).
  - intros p rest Hw [x Hp]. unfold set_payoffs. cbn [mapM].
    unfold tax_and_audit. rewrite Hp, Hw. reflexivity.
Qed.

End MoreSettlement.

Lemma set_payoffs_edge_cases_witness :
  exists r',
    set_payoffs (currency := cents) example_group
      ([Player.set_reported_income 100 (Player.fresh 1 1)] ++ Player.fresh 2 2 :: [])
      example_random
    = (inl (TypeError "reported_income"), r').
Proof.
  destruct (set_payoffs_edge_cases (currency := cents) example_group example_random)
    as (_ & Hmissing & _).
  apply (Hmissing 0.2%Q); [reflexivity | repeat constructor; eexists; reflexivity | reflexivity].
Defined.

Lemma audit_follows_samples_witness :
  exists g' ps',
    set_payoffs (currency := cents) example_group example_players example_random
    = (inr (g', ps'), advanced 3 example_random) /\
    length ps' = 3%nat.
Proof.
  destruct (audit_follows_samples (currency := cents)
              example_group example_players example_random 0.2
              [100; 200; 300]%Q [500; 300; 300]%Q)
    as (g' & ps' & Hrun & Hlen & _); [reflexivity | reflexivity | reflexivity |].
  exists g', ps'. split; [exact Hrun | exact Hlen].
Defined.

Lemma audit_takes_unreported_income_witness :
  exists g' ps' r' share,
    set_payoffs (currency := cents) example_group example_players example_random
    = (inr (g', ps'), r') /\
    Group.individual_share g' = Some share.
Proof.
  destruct (audit_takes_unreported_income (currency := cents)
              example_group example_players example_random 0.2
              [100; 200; 300]%Q [500; 300; 300]%Q)
    as (g' & ps' & r' & share & Hrun & Hshare & _);
    [reflexivity | reflexivity | reflexivity |].
  exists g', ps', r', share. split; [exact Hrun | exact Hshare].
Defined.

(** ** More on voting *)

(** The group record [assign_treatment] returns, and the samples it uses. *)
Lemma assign_treatment_decided g ps r votes :
  map Player.if_vote ps = map Some votes ->
  let override := pick 1 1 (next_sample r) in
  let second := pick 1 1 (next_sample (advance r)) in
  assign_treatment g ps r
  = (inr (decided (yes_votes votes) override second g),
     if override =? 1 then advance (advance r) else advance r).
Proof.
  intros Hvotes override second. unfold assign_treatment.
  rewrite (bind_ok _ _ _ _ _ (votes_on_record _ _ _ Hvotes)).
  cbn [Group.total_if_vote Group.set_total_if_vote].
  rewrite (bind_ok _ _ _ _ _ (field_ok _ _ _)).
  rewrite sum_bool_count. fold (yes_votes votes).
  rewrite (bind_ok _ _ _ _ _ (choices_two _ _ _ fair_total_positive)).
  cbn [lookup list_lookup]. rewrite (bind_ok _ _ _ _ _ (field_ok _ _ _)).
  fold override. unfold decided, endogenous.
  destruct (override =? 1); [|reflexivity].
  rewrite (bind_ok _ _ _ _ _ (choices_two _ _ _ fair_total_positive)).
  cbn [lookup list_lookup]. rewrite (bind_ok _ _ _ _ _ (field_ok _ _ _)).
  fold second. destruct (second =? 1); reflexivity.
Qed.

(** X5. Whatever the votes and the draws, [assign_treatment] leaves one of
    the four labels in [treatment]; [if_override] is true exactly for the two
    exogenous labels and false exactly for the two endogenous ones; the
    tally lies between 0 and the number of players; and the settlement fields
    of the group are not touched. *)
Theorem assign_treatment_labels
    (g : Group.t) (ps : list Player.t) (r : RandomState) (votes : list bool) :
  map Player.if_vote ps = map Some votes ->
  exists g' r' tally,
    assign_treatment g ps r = (inr g', r') /\
    Group.total_if_vote g' = Some tally /\
    0 <= tally <= Z.of_nat (length ps) /\
    (Group.treatment g' = Some "EndoYes" \/ Group.treatment g' = Some "EndoNo" \/
     Group.treatment g' = Some "ExoYes" \/ Group.treatment g' = Some "ExoNo") /\
    (Group.if_override g' = Some true <->
     Group.treatment g' = Some "ExoYes" \/ Group.treatment g' = Some "ExoNo") /\
    (Group.if_override g' = Some false <->
     Group.treatment g' = Some "EndoYes" \/ Group.treatment g' = Some "EndoNo") /\
    Group.audit_weight g' = Group.audit_weight g /\
    Group.total_tax_paid g' = Group.total_tax_paid g /\
    Group.individual_share g' = Group.individual_share g.
Proof.
  intros Hvotes. rewrite (assign_treatment_decided g ps r votes Hvotes).
  eexists _, _, (yes_votes votes). split; [reflexivity|].
  assert (Hbound : 0 <= yes_votes votes <= Z.of_nat (length ps)).
  { unfold yes_votes. pose proof (length_filter (fun b : bool => b = true) votes) as Hle.
    apply (f_equal (@length _)) in Hvotes. rewrite !length_map in Hvotes. lia. }
  unfold decided, endogenous.
  destruct (pick 1 1 (next_sample r) =? 1), (pick 1 1 (next_sample (advance r)) =? 1),
    (Qltb _ _); cbn;
    (split; [reflexivity|]; split; [exact Hbound|]; split; [tauto|];
     repeat split; try tauto; try reflexivity;
     intros; try discriminate; repeat match goal with H : _ \/ _ |- _ => destruct H end;
     discriminate).
Qed.

Lemma assign_treatment_labels_witness :
  exists g' r' tally,
    assign_treatment Group.empty
      [Player.set_if_vote true (Player.fresh 1 1);
       Player.set_if_vote false (Player.fresh 2 2)] example_random = (inr g', r') /\
    Group.total_if_vote g' = Some tally /\
    0 <= tally <= 2.
Proof.
  destruct (assign_treatment_labels Group.empty
              [Player.set_if_vote true (Player.fresh 1 1);
               Player.set_if_vote false (Player.fresh 2 2)]
              example_random [true; false])
    as (g' & r' & tally & Hrun & Htally & Hbound & _); [reflexivity|].
  exists g', r', tally. auto.
Defined.

(** X6. A player without a vote on record makes [assign_treatment] raise a
    [TypeError] before any draw: the random source is as it was. *)
Theorem assign_treatment_missing_vote
    (g : Group.t) (before : list Player.t) (p : Player.t) (after : list Player.t)
    (r : RandomState) :
  Forall (fun q => is_Some (Player.if_vote q)) before ->
  Player.if_vote p = None ->
  assign_treatment g (before ++ p :: after) r = (inl (TypeError "if_vote"), r).
Proof.
  intros Hbefore Hp. unfold assign_treatment.
  assert (Hloop : mapM (fun q => field (St := RandomState) "if_vote" (Player.if_vote q))
                    (before ++ p :: after) r = (inl (TypeError "if_vote"), r)).
  { induction Hbefore as [|q before [v Hq] _ IH].
    - cbn [app mapM]. rewrite Hp. reflexivity.
    - cbn [app mapM]. rewrite Hq, (bind_ok _ _ _ _ _ (field_ok _ _ _)).
      now rewrite (bind_err _ _ _ _ _ IH). }
  now rewrite (bind_err _ _ _ _ _ Hloop).
Qed.

Lemma assign_treatment_missing_vote_witness :
  assign_treatment Group.empty
    ([Player.set_if_vote true (Player.fresh 1 1)] ++ Player.fresh 2 2 :: [])
    example_random
  = (inl (TypeError "if_vote"), example_random).
Proof.
  apply assign_treatment_missing_vote;
    [repeat constructor; eexists; reflexivity | reflexivity].
Defined.

(** ** From the vote to the audit weight of a later round *)

(** X7. When the group record of the vote round is the one [assign_treatment]
    returned, [before_next_page] in a later round sets the audit weight to
    0.5 exactly when the vote is overridden and the second draw lands on 1, or
    the vote is not overridden and at least two players voted yes; otherwise
    it sets 0.2. *)
Theorem vote_decides_audit_weight
    (params : Params.t) (timeout_happened : bool) (s : Stage.t) (g g0 voted : Group.t)
    (ps : list Player.t) (votes : list bool) (r : RandomState) :
  timeout_happened = true \/ truthy (Params.max_iterations params) = true ->
  map Player.if_vote ps = map Some votes ->
  fst (assign_treatment g0 ps r) = inr voted ->
  Stage.groups s !! Constants.vote_round = Some voted ->
  Stage.groups s !! Stage.round_number s = Some g ->
  Constants.vote_round < Stage.round_number s ->
  let override := pick 1 1 (next_sample r) in
  let second := pick 1 1 (next_sample (advance r)) in
  let raised := if override =? 1 then second =? 1 else 2 <=? yes_votes votes in
  exists s' g',
    before_next_page params timeout_happened s = (inr tt, s') /\
    Stage.groups s' !! Stage.round_number s = Some g' /\
    Group.treatment g' = Group.treatment voted /\
    Group.audit_weight g' = Some (if raised then 0.5%Q else 0.2%Q).
Proof.
  intros Hpass Hvotes Hvoted Hlook Hg Hround override second raised.
  assert (Hguard : negb timeout_happened
                   && negb (truthy (Params.max_iterations params)) = false).
  { destruct Hpass as [-> | ->]; [reflexivity | apply andb_false_r]. }
  pose proof (assign_treatment_decided g0 ps r votes Hvotes) as Hdec.
  cbv zeta in Hdec. rewrite Hdec in Hvoted. clear Hdec.
  assert (Hdecided : voted = decided (yes_votes votes) override second g0).
  { injection Hvoted as Hv. symmetry. exact Hv. }
  clear Hvoted.
  eexists _, _.
  split; [apply (before_next_page_late _ _ _ _ _ Hguard Hg Hlook); lia|].
  split; [cbn; apply lookup_insert_eq|]. split; [reflexivity|].
  cbn [Group.audit_weight Group.set_audit_weight]. f_equal.
  pose proof (majority_test (yes_votes votes)) as Hmaj.
  rewrite Hdecided. subst raised. unfold decided, endogenous.
  destruct (override =? 1).
  - destruct (second =? 1); reflexivity.
  - destruct (Qltb _ _) eqn:E.
    + rewrite (proj2 (Z.leb_le _ _) (proj1 Hmaj eq_refl)). reflexivity.
    + destruct (2 <=? yes_votes votes) eqn:E2; [|reflexivity].
      apply Z.leb_le, Hmaj in E2. discriminate.
Qed.

Lemma vote_decides_audit_weight_witness :
  exists s' g',
    before_next_page Params.defaults true
      {| Stage.player := Player.fresh 1 1; Stage.round_number := 3;
         Stage.groups :=
           <[3 := Group.empty]>
             (<[2 := decided 2 (pick 1 1 0.1) (pick 1 1 0.9) Group.empty]> ∅) |}
    = (inr tt, s') /\
    Stage.groups s' !! 3 = Some g' /\
    Group.audit_weight g' = Some 0.2%Q.
Proof.
  destruct (vote_decides_audit_weight Params.defaults true
              {| Stage.player := Player.fresh 1 1; Stage.round_number := 3;
                 Stage.groups :=
                   <[3 := Group.empty]>
                     (<[2 := decided 2 (pick 1 1 0.1) (pick 1 1 0.9) Group.empty]> ∅) |}
              Group.empty Group.empty
              (decided 2 (pick 1 1 0.1) (pick 1 1 0.9) Group.empty)
              [Player.set_if_vote true (Player.fresh 1 1);
               Player.set_if_vote true (Player.fresh 2 2);
               Player.set_if_vote false (Player.fresh 3 3)]
              [true; true; false] example_random)
    as (s' & g' & Hrun & Hg' & _ & Hweight);
    [left; reflexivity | reflexivity | reflexivity | reflexivity | reflexivity
     | reflexivity |].
  exists s', g'. split; [exact Hrun|]. split; [exact Hg' | exact Hweight].
Defined.

(** ** More on the end of the puzzle page *)

(** X8. [before_next_page] can be repeated: a second run from the state the
    first one left returns and leaves that state as it is.  The run changes
    the group record of the player's round only, and of the player record it
    changes [real_effort_income] only. *)
Theorem before_next_page_repeatable
    (params : Params.t) (timeout_happened : bool) (s : Stage.t) (g voted : Group.t) :
  timeout_happened = true \/ truthy (Params.max_iterations params) = true ->
  Stage.groups s !! Stage.round_number s = Some g ->
  Stage.groups s !! Constants.vote_round = Some voted ->
  exists s',
    before_next_page params timeout_happened s = (inr tt, s') /\
    before_next_page params timeout_happened s' = (inr tt, s') /\
    Stage.round_number s' = Stage.round_number s /\
    (forall r, r <> Stage.round_number s -> Stage.groups s' !! r = Stage.groups s !! r) /\
    Stage.player s' = finalized_player (Stage.player s).
Proof.
  intros Hpass Hg Hvoted.
  assert (Hguard : negb timeout_happened
                   && negb (truthy (Params.max_iterations params)) = false).
  { destruct Hpass as [-> | ->]; [reflexivity | apply andb_false_r]. }
  destruct (Z.lt_ge_cases (Stage.round_number s) Constants.vote_round) as [Hround | Hround].
  - eexists. split; [exact (before_next_page_early _ _ _ _ Hguard Hg Hround)|].
    split; [|split; [reflexivity|split; [|reflexivity]]].
    + erewrite before_next_page_early; [| exact Hguard | cbn; apply lookup_insert_eq
                                        | exact Hround].
      cbn. rewrite insert_insert_eq. reflexivity.
    + intros r Hr. cbn. now rewrite lookup_insert_ne by congruence.
  - eexists. split; [exact (before_next_page_late _ _ _ _ _ Hguard Hg Hvoted Hround)|].
    split; [|split; [reflexivity|split; [|reflexivity]]].
    + destruct (decide (Stage.round_number s = Constants.vote_round)) as [Heq | Hne].
      * assert (voted = g) by congruence. subst voted.
        erewrite before_next_page_late;
          [| exact Hguard | cbn; apply lookup_insert_eq
           | cbn; rewrite Heq; apply lookup_insert_eq | exact Hround].
        cbn. rewrite insert_insert_eq. reflexivity.
      * erewrite before_next_page_late;
          [| exact Hguard | cbn; apply lookup_insert_eq
           | cbn; rewrite lookup_insert_ne by congruence; exact Hvoted | exact Hround].
        cbn. rewrite insert_insert_eq. reflexivity.
    + intros r Hr. cbn. now rewrite lookup_insert_ne by congruence.
Qed.

Lemma before_next_page_repeatable_witness :
  exists s',
    before_next_page Params.defaults true example_stage = (inr tt, s') /\
    before_next_page Params.defaults true s' = (inr tt, s').
Proof.
  destruct (before_next_page_repeatable Params.defaults true example_stage Group.empty
              (Group.set_treatment (Some "ExoYes") Group.empty))
    as (s' & Hrun & Hagain & _); [left; reflexivity | reflexivity | reflexivity |].
  exists s'. split; [exact Hrun | exact Hagain].
Defined.

(** ** The pages of a round *)

(** X9. In the vote round the puzzle page, the income report and the
    settlement are skipped and the vote and the treatment assignment are
    shown; in every other round it is the other way round.  So each round
    runs exactly one of the two group-level functions: [assign_treatment] in
    the vote round, [set_payoffs] in all others. *)
Theorem one_barrier_per_round (round_number : Z) :
  filter (fun page => is_displayed page round_number = true) page_sequence
  = (if round_number =? Constants.vote_round
     then [Vote; VoteWaitPage; Results]
     else [Game; Contribute; ContributeWaitPage; Results]) /\
  omap after_all_players_arrive
    (filter (fun page => is_displayed page round_number = true) page_sequence)
  = [if round_number =? Constants.vote_round then run_assign_treatment else run_set_payoffs].
Proof.
  unfold page_sequence.
  assert (Hshown : filter (fun page => is_displayed page round_number = true)
                     [Game; Contribute; ContributeWaitPage; Vote; VoteWaitPage; Results]
                   = if round_number =? Constants.vote_round
                     then [Vote; VoteWaitPage; Results]
                     else [Game; Contribute; ContributeWaitPage; Results]).
  { destruct (round_number =? Constants.vote_round) eqn:E.
    - repeat (rewrite filter_cons; cbn [is_displayed]; rewrite ?E; cbn [negb];
              destruct (decide _) as [?|?]; try discriminate; try congruence).
      reflexivity.
    - repeat (rewrite filter_cons; cbn [is_displayed]; rewrite ?E; cbn [negb];
              destruct (decide _) as [?|?]; try discriminate; try congruence).
      reflexivity. }
  rewrite Hshown. split; [reflexivity|].
  destruct (round_number =? Constants.vote_round); reflexivity.
Qed.

(** ** More on the live protocol *)

Section LiveCases.
Context {task_module : TaskModule}.
Variable encode_image : string -> string.
Variable DEBUG : bool.
Variable params : Params.t.

Local Abbreviation handle := (play_game encode_image DEBUG params).
Local Abbreviation handle_all := (run encode_image DEBUG params).

Lemma get_current_puzzle_spec w :
  match current_of w with
  | [] => get_current_puzzle w = (inr None, w)
  | [z] => get_current_puzzle w = (inr (Some z), w)
  | _ => exists e, get_current_puzzle w = (inl e, w)
  end.
Proof.
  unfold get_current_puzzle, mbind, M_bind, the_player, get, current_of.
  destruct (Puzzle.filter _ _ _) as [|z [|z' l]]; [reflexivity | reflexivity |].
  eexists. reflexivity.
Qed.

(** The row a [next] message adds. *)
Lemma issue_row my_id w :
  exists out w',
    issue encode_image my_id w = (out, w') /\ issued out = true /\ issue_step w w'.
Proof.
  unfold issue, generate_puzzle, with_rng, mbind, M_bind, write_player, the_player,
    time_time, Puzzle_create, get_progress, mret, M_ret.
  destruct (generate_puzzle_fields (World.rng w)) as [fields r'].
  eexists _, _. split; [reflexivity|]. split; [reflexivity|].
  eexists. repeat split; reflexivity.
Qed.

Lemma undo_last_first now c w :
  Puzzle.response c = None -> undo_last params now c w = (inr tt, w).
Proof.
  intros H. unfold undo_last. rewrite H. reflexivity.
Qed.

(** The [answer] branch once the retry part has returned. *)
Lemma on_answer_after_undo my_id now i c m w w1 :
  undo_last params now c w = (inr tt, w1) ->
  on_answer params my_id now (Some (i, c)) m w
  = match Message.answer m with
    | None => (inl (KeyError "answer"), w1)
    | Some JNull => (inl (ValueError "bogus answer"), w1)
    | Some (JString a) =>
        if String.eqb a EmptyString then (inl (ValueError "bogus answer"), w1)
        else
          let verdict := is_correct a (Puzzle.set_response a c) in
          (inr (my_id,
                feedback verdict
                  (Params.attempts_per_puzzle params - (Puzzle.attempts c + 1))
                  (progress_of (judged verdict (World.player w1)))),
           World.set_player (judged verdict (World.player w1))
             (World.set_puzzles (<[i := latest_row now a verdict c]> (World.puzzles w1)) w1))
    end.
Proof.
  intros Hundo. unfold on_answer. rewrite (bind_ok _ _ _ _ _ Hundo).
  destruct (Message.answer m) as [[|a]|]; [reflexivity | | reflexivity].
  unfold mbind, M_bind, mret, M_ret, write_player, write_puzzle, get_progress, the_player.
  destruct (String.eqb a EmptyString); [reflexivity|].
  cbn [Puzzle.is_correct Puzzle.set_is_correct Puzzle.set_response_timestamp
       Puzzle.set_attempts Puzzle.attempts].
  cbv zeta. unfold latest_row, judged, progress_of.
  destruct (is_correct a (Puzzle.set_response a c)); reflexivity.
Qed.

(** Every invocation of the handler is of one of four kinds: it writes
    nothing; it issues a puzzle, under the conditions for that; it accepts an
    answer; or it takes back the last attempt and then refuses a retry for its
    answer. *)
Lemma play_game_cases m w out w' :
  handle m w = (out, w') ->
  (issued out = false /\ feedback_sent out = false /\ quiet w w') \/
  (issued out = true /\ issue_allowed params w /\ issue_step w w') \/
  (issued out = false /\ answer_step params w w' out) \/
  (served out = false /\ refused_retry_step params m w w').
Proof.
  intros Hrun. unfold play_game in Hrun.
  rewrite (bind_ok _ _ w (World.player w) w) in Hrun by reflexivity.
  rewrite (bind_ok _ _ _ _ _ (time_time_ok w)) in Hrun.
  pose proof (get_current_puzzle_spec (ticked w)) as Hcur.
  change (current_of (ticked w)) with (current_of w) in Hcur.
  assert (Hquiet : forall e, (inl e : exn + nat * Response, ticked w) = (out, w') ->
            issued out = false /\ feedback_sent out = false /\ quiet w w').
  { intros e [= <- <-]. split; [reflexivity | split; [reflexivity | split; reflexivity]]. }
  destruct (current_of w) as [|[i c] [|z' l]] eqn:Hcw.
  - (* no current puzzle *)
    rewrite (bind_ok _ _ _ _ _ Hcur) in Hrun.
    destruct (String.eqb (Message.type m) "load").
    { left. injection Hrun as <- <-.
      split; [reflexivity | split; [reflexivity | split; reflexivity]]. }
    destruct (String.eqb (Message.type m) "cheat" && DEBUG).
    { left. eapply Hquiet. exact Hrun. }
    destruct (String.eqb (Message.type m) "next").
    { right. left. unfold on_next in Hrun.
      destruct (issue_row (Player.id_in_group (World.player w)) (ticked w))
        as (out0 & w0 & Hissue & Hout & Hstep).
      rewrite Hissue in Hrun. injection Hrun as <- <-.
      split; [exact Hout|]. split; [left; exact Hcw | exact Hstep]. }
    destruct (String.eqb (Message.type m) "answer").
    { left. eapply Hquiet. exact Hrun. }
    left. eapply Hquiet. exact Hrun.
  - (* one current puzzle *)
    rewrite (bind_ok _ _ _ _ _ Hcur) in Hrun.
    destruct (String.eqb (Message.type m) "load").
    { left. injection Hrun as <- <-.
      split; [reflexivity | split; [reflexivity | split; reflexivity]]. }
    destruct (String.eqb (Message.type m) "cheat" && DEBUG).
    { left. injection Hrun as <- <-.
      split; [reflexivity | split; [reflexivity | split; reflexivity]]. }
    destruct (String.eqb (Message.type m) "next").
    { unfold on_next in Hrun.
      destruct (bool_decide (Puzzle.response c = None)) eqn:Hresp.
      { left. eapply Hquiet. exact Hrun. }
      apply bool_decide_eq_false_1 in Hresp.
      destruct (Qltb (now_of w) _) eqn:Hearly.
      { left. eapply Hquiet. exact Hrun. }
      apply Qltb_ge in Hearly.
      destruct (bool_decide (Some (Puzzle.iteration c) = _)) eqn:Hcap.
      { left. injection Hrun as <- <-.
      split; [reflexivity | split; [reflexivity | split; reflexivity]]. }
      apply bool_decide_eq_false_1 in Hcap.
      right. left.
      destruct (issue_row (Player.id_in_group (World.player w)) (ticked w))
        as (out0 & w0 & Hissue & Hout & Hstep).
      rewrite Hissue in Hrun. injection Hrun as <- <-.
      split; [exact Hout|]. split; [|exact Hstep].
      right. exists i, c. repeat split; auto. }
    destruct (String.eqb (Message.type m) "answer") eqn:Htype;
      [|left; eapply Hquiet; exact Hrun].
    apply String.eqb_eq in Htype.
    destruct (Puzzle.response c) as [previous|] eqn:Hresp.
    + (* a retry *)
      destruct (Z.leb_spec (Params.attempts_per_puzzle params) (Puzzle.attempts c))
        as [Hnone | Hleft].
      { left. apply (Hquiet (RuntimeError "no more attempts allowed")). rewrite <- Hrun.
        unfold on_answer, undo_last. rewrite Hresp.
        rewrite bool_decide_eq_false_2 by discriminate.
        apply Z.leb_le in Hnone. rewrite Hnone. reflexivity. }
      destruct (Puzzle.response_timestamp c) as [answered|] eqn:Hstamp.
      2: { left. apply (Hquiet (TypeError "response_timestamp")). rewrite <- Hrun.
           unfold on_answer, undo_last. rewrite Hresp, Hstamp.
           rewrite bool_decide_eq_false_2 by discriminate.
           apply Z.leb_gt in Hleft. rewrite Hleft. reflexivity. }
      destruct (Qltb (now_of w) (answered + Params.retry_delay params)) eqn:Hearly.
      { left. apply (Hquiet (RuntimeError "retrying too fast")). rewrite <- Hrun.
        unfold on_answer, undo_last. rewrite Hresp, Hstamp.
        rewrite bool_decide_eq_false_2 by discriminate.
        apply Z.leb_gt in Hleft. rewrite Hleft.
        unfold mbind, M_bind, field, mret, M_ret. rewrite Hearly. reflexivity. }
      apply Qltb_ge in Hearly.
      rewrite (on_answer_after_undo _ _ _ _ _ _ _
                 (undo_last_retry params _ _ _ _ (ticked w) Hresp Hstamp Hleft Hearly))
        in Hrun.
      assert (Hbogus : forall e,
                 bogus m ->
                 (inl e : exn + nat * Response,
                  World.set_player (undone c (World.player w)) (ticked w)) = (out, w') ->
                 served out = false /\ refused_retry_step params m w w').
      { intros e Hm [= <- <-]. split; [reflexivity|]. exists i, c, answered.
        split; [exact Htype|]. split; [exact Hm|].
        split; [exact Hcw|]. split; [rewrite Hresp; discriminate|].
        split; [exact Hleft|]. split; [exact Hstamp|]. split; [exact Hearly|].
        split; reflexivity. }
      change (World.player (ticked w)) with (World.player w) in Hrun.
      fold (undone c (World.player w)) in Hrun.
      destruct (Message.answer m) as [[|a]|] eqn:Hans;
        [right; right; right; eapply Hbogus; [right; left; exact Hans | exact Hrun] | |
         right; right; right; eapply Hbogus; [left; exact Hans | exact Hrun]].
      destruct (String.eqb a EmptyString) eqn:Ha.
      { apply String.eqb_eq in Ha. subst a.
        right; right; right; eapply Hbogus; [right; right; exact Hans | exact Hrun]. }
      apply String.eqb_neq in Ha.
      right. right. left. cbv zeta in Hrun. injection Hrun as <- <-.
      split; [reflexivity|]. exists i, c, a.
      split; [exact Hcw|]. split; [exact Ha|].
      split; [right; split; [rewrite Hresp; discriminate|]; split; [exact Hleft|]; eauto|].
      cbv zeta. rewrite (bool_decide_eq_false_2 (Puzzle.response c = None))
        by (rewrite Hresp; discriminate).
      repeat split; reflexivity.
    + (* a first answer *)
      rewrite (on_answer_after_undo _ _ _ _ _ _ _
                 (undo_last_first _ _ (ticked w) Hresp)) in Hrun.
      destruct (Message.answer m) as [[|a]|];
        [left; eapply Hquiet; exact Hrun | | left; eapply Hquiet; exact Hrun].
      destruct (String.eqb a EmptyString) eqn:Ha; [left; eapply Hquiet; exact Hrun|].
      apply String.eqb_neq in Ha.
      right. right. left. cbv zeta in Hrun. injection Hrun as <- <-.
      split; [reflexivity|]. exists i, c, a.
      split; [exact Hcw|]. split; [exact Ha|]. split; [left; exact Hresp|].
      cbv zeta. rewrite (bool_decide_eq_true_2 (Puzzle.response c = None)) by exact Hresp.
      repeat split; reflexivity.
  - (* several rows at the current iteration *)
    destruct Hcur as [e He]. rewrite (bind_err _ _ _ _ _ He) in Hrun.
    left. eapply Hquiet. exact Hrun.
Qed.

(** *** Steps and the numbering of the rows *)

Lemma quiet_same_numbering w w' : quiet w w' -> same_numbering w w'.
Proof. intros [Hp Hz]. unfold same_numbering. rewrite Hp. auto. Qed.

Lemma answer_step_same_numbering w w' out :
  answer_step params w w' out -> same_numbering w w'.
Proof.
  intros (i & c & a & Hcur & _ & _ & Hrest). cbv zeta in Hrest.
  destruct Hrest as (_ & Hp & Hz).
  destruct (current_row _ _ _ Hcur) as (Hrow & _).
  unfold same_numbering. rewrite Hp. unfold judged, undone.
  split; [|split].
  - repeat (destruct (bool_decide _) || destruct (is_correct _ _)); reflexivity.
  - repeat (destruct (bool_decide _) || destruct (is_correct _ _)); reflexivity.
  - right. eexists i, c, _. split; [exact Hrow|]. split; [exact Hz|].
    split; reflexivity.
Qed.

Lemma refused_retry_bogus m w w' :
  refused_retry_step params m w w' -> bogus_retry_step params w w'.
Proof.
  intros (i & c & answered & _ & _ & Hcur & Hresp & Hleft & _ & _ & Hp & Hz).
  exists i, c. auto.
Qed.

Lemma bogus_retry_same_numbering w w' :
  bogus_retry_step params w w' -> same_numbering w w'.
Proof.
  intros (i & c & _ & _ & _ & Hp & Hz). unfold same_numbering. rewrite Hp.
  unfold undone. destruct (bool_decide _); auto.
Qed.

Lemma issue_step_one_issued w w' : issue_step w w' -> one_issued w w'.
Proof.
  intros (z & Hz & Hp & Hmine & Hit & _). exists z. auto.
Qed.

(** *** Reading the state *)

(** X10. A [load] message only reads: it returns a status message with the
    progress counters and, when a puzzle is current, its encoded image; the
    player record and the store are as before, so any number of [load]
    messages in a row get the same answer. *)
Theorem load_only_reads (messages : list Message.t) (w : World.t) :
  (length (current_of w) <= 1)%nat ->
  Forall (fun m => Message.type m = "load") messages ->
  let payload := match current_of w with
                 | [(_, c)] => Some (encode_image (render_image c))
                 | _ => None
                 end in
  exists w',
    handle_all messages w
    = (map (fun _ => inr (Player.id_in_group (World.player w),
                          status (progress_of (World.player w)) payload None))
           messages, w') /\
    quiet w w'.
Proof.
  intros Hone Hload payload. revert w Hone payload.
  induction Hload as [|m messages Hm _ IH]; intros w Hone payload.
  - exists w. split; [reflexivity | split; reflexivity].
  - assert (Hstep : handle m w
                    = (inr (Player.id_in_group (World.player w),
                            status (progress_of (World.player w)) payload None),
                       ticked w)).
    { unfold play_game.
      rewrite (bind_ok _ _ w (World.player w) w) by reflexivity.
      rewrite (bind_ok _ _ _ _ _ (time_time_ok w)).
      pose proof (get_current_puzzle_spec (ticked w)) as Hcur.
      change (current_of (ticked w)) with (current_of w) in Hcur.
      subst payload. destruct (current_of w) as [|[i c] [|z' l]]; cbn in Hone; [| |lia];
        rewrite (bind_ok _ _ _ _ _ Hcur), Hm; reflexivity. }
    destruct (IH (ticked w) Hone) as (w' & Hrun & Hquiet).
    exists w'. cbn [run map]. rewrite Hstep, Hrun. split; [reflexivity | exact Hquiet].
Qed.

(** X11. Messages of a type the handler does not know are refused as
    unrecognized and write nothing.  A [cheat] message is among them unless
    the DEBUG setting is on; with DEBUG on it returns the solution of the
    current puzzle, and fails when no puzzle is current. *)
Theorem cheat_needs_debug (m : Message.t) (w : World.t) :
  (length (current_of w) <= 1)%nat ->
  Message.type m <> "load" ->
  Message.type m <> "next" ->
  Message.type m <> "answer" ->
  (DEBUG = false \/ Message.type m <> "cheat" ->
   handle m w = (inl (RuntimeError "unrecognized message from client"), ticked w)) /\
  (DEBUG = true -> Message.type m = "cheat" ->
   handle m w
   = (match current_of w with
      | [(_, c)] => inr (Player.id_in_group (World.player w), solution (Puzzle.solution c))
      | _ => inl (AttributeError "solution")
      end, ticked w)).
Proof.
  intros Hone Hload Hnext Hanswer.
  assert (Hunfold : handle m w
            = (current ← get_current_puzzle;
               if String.eqb (Message.type m) "cheat" && DEBUG then
                 match current with
                 | Some (_, current) =>
                     mret (Player.id_in_group (World.player w),
                           solution (Puzzle.solution current))
                 | None => raise (AttributeError "solution")
                 end
               else raise (RuntimeError "unrecognized message from client")) (ticked w)).
  { unfold play_game.
    rewrite (bind_ok _ _ w (World.player w) w) by reflexivity.
    rewrite (bind_ok _ _ _ _ _ (time_time_ok w)).
    apply String.eqb_neq in Hload, Hnext, Hanswer.
    unfold mbind, M_bind. destruct (get_current_puzzle (ticked w)) as [[e|current] w1];
      [reflexivity|].
    rewrite Hload, Hnext, Hanswer. reflexivity. }
  rewrite Hunfold.
  pose proof (get_current_puzzle_spec (ticked w)) as Hcur.
  change (current_of (ticked w)) with (current_of w) in Hcur.
  split.
  - intros Hoff.
    assert (Hcheat : String.eqb (Message.type m) "cheat" && DEBUG = false).
    { destruct Hoff as [-> | Hne]; [apply andb_false_r|].
      apply String.eqb_neq in Hne. now rewrite Hne. }
    destruct (current_of w) as [|[i c] [|z' l]]; cbn in Hone; [| |lia];
      rewrite (bind_ok _ _ _ _ _ Hcur), Hcheat; reflexivity.
  - intros -> Hcheat. rewrite Hcheat.
    destruct (current_of w) as [|[i c] [|z' l]]; cbn in Hone; [| |lia];
      rewrite (bind_ok _ _ _ _ _ Hcur); reflexivity.
Qed.

(** X19. Reaching the cap is not an error: a [next] message on an answered
    puzzle whose iteration is [max_iterations], after the delay, gets a status
    message with [iterations_left = 0], and nothing is written. *)
Theorem next_at_cap (w : World.t) (i : nat) (c : Puzzle.t) :
  current_of w = [(i, c)] ->
  Puzzle.response c <> None ->
  (Puzzle.timestamp c + Params.puzzle_delay params <= now_of w)%Q ->
  Params.max_iterations params = Some (Puzzle.iteration c) ->
  handle next_message w
  = (inr (Player.id_in_group (World.player w),
          status (progress_of (World.player w)) None (Some 0)), ticked w).
Proof.
  intros Hcur Hresp Hlate Hcap.
  rewrite (play_game_next encode_image DEBUG params next_message w _ eq_refl Hcur).
  unfold on_next. rewrite bool_decide_eq_false_2 by exact Hresp.
  apply Qltb_ge in Hlate. rewrite Hlate.
  rewrite bool_decide_eq_true_2 by (now rewrite Hcap). reflexivity.
Qed.

(** *** Answers *)

(** X12. The first answer to a puzzle is accepted whenever it is not empty:
    neither the attempt limit nor any delay is checked.  It is judged, the
    row takes the response, the verdict and one attempt, and the counters
    count one more trial and one more correct or failed answer. *)
Theorem first_answer_accepted (w : World.t) (i : nat) (c : Puzzle.t) (a : string) :
  current_of w = [(i, c)] ->
  Puzzle.response c = None ->
  a <> EmptyString ->
  let verdict := is_correct a (Puzzle.set_response a c) in
  exists w',
    handle (answer_message (JString a)) w
    = (inr (Player.id_in_group (World.player w),
            feedback verdict
              (Params.attempts_per_puzzle params - (Puzzle.attempts c + 1))
              (progress_of (judged verdict (World.player w)))), w') /\
    World.player w' = judged verdict (World.player w) /\
    World.puzzles w' = <[i := latest_row (now_of w) a verdict c]> (World.puzzles w) /\
    Player.num_trials (World.player w') = Player.num_trials (World.player w) + 1 /\
    Player.num_correct (World.player w')
    = Player.num_correct (World.player w) + Z_of_bool verdict /\
    Player.num_failed (World.player w')
    = Player.num_failed (World.player w) + Z_of_bool (negb verdict).
Proof.
  intros Hcur Hresp Ha verdict.
  rewrite (play_game_answer encode_image DEBUG params
             (answer_message (JString a)) w _ eq_refl Hcur).
  rewrite (on_answer_after_undo _ _ _ _ _ _ _ (undo_last_first _ _ (ticked w) Hresp)).
  cbn [Message.answer answer_message].
  apply String.eqb_neq in Ha. rewrite Ha. cbv zeta. fold verdict.
  eexists. split; [reflexivity|]. split; [reflexivity|]. split; [reflexivity|].
  unfold judged. destruct verdict; cbn; repeat split; lia.
Qed.

(** *** What a step may write *)



(** *** Invariants of a conversation *)

(** A property of worlds that every step keeps holds after every run. *)
Lemma run_invariant (I : World.t -> Prop) :
  (forall m w, I w -> I (snd (handle m w))) ->
  forall messages w, I w -> I (snd (handle_all messages w)).
Proof.
  intros Hstep messages. induction messages as [|m messages IH]; intros w Hw; [exact Hw|].
  cbn [run]. specialize (Hstep m w Hw). destruct (handle m w) as [out w1].
  specialize (IH w1 Hstep). destruct (handle_all messages w1) as [outs w2]. exact IH.
Qed.

Lemma step_counts_latest m w :
  served (fst (handle m w)) = true ->
  counts_latest w -> counts_latest (snd (handle m w)).
Proof.
  destruct (handle m w) as [out w'] eqn:Hrun. cbn [fst snd]. intros Hserved Hw.
  destruct (play_game_cases _ _ _ _ Hrun)
    as [(_ & _ & Hp & Hz) | [(_ & _ & Hstep) | [[_ Hstep] | [Hout _]]]]; [| | |congruence].
  - unfold counts_latest. rewrite Hp, Hz. exact Hw.
  - destruct Hstep as (z & Hz & Hp & Hmine & _ & _ & Hresp & _).
    unfold counts_latest in *. rewrite Hp, Hz.
    cbn [Player.id Player.num_trials Player.num_correct Player.num_failed
         Player.set_iteration].
    assert (Hnew : answered_by (Player.id (World.player w)) z = false).
    { unfold answered_by. rewrite Hresp. rewrite bool_decide_eq_true_2 by reflexivity.
      apply andb_false_r. }
    assert (Hnew_c : judged_correct (Player.id (World.player w)) z = false).
    { unfold judged_correct. now rewrite Hnew. }
    assert (Hnew_f : judged_failed (Player.id (World.player w)) z = false).
    { unfold judged_failed. now rewrite Hnew. }
    rewrite !count_app. cbn [count]. rewrite Hnew, Hnew_c, Hnew_f.
    destruct Hw as (Ht & Hc & Hf). repeat split; lia.
  - destruct Hstep as (i & c & a & Hcur & _ & Hkind & Hrest). cbv zeta in Hrest.
    destruct Hrest as (_ & Hp & Hz).
    destruct (current_row _ _ _ Hcur) as (Hrow & Hmine & _).
    set (me := Player.id (World.player w)) in *.
    set (verdict := is_correct a (Puzzle.set_response a c)) in *.
    set (latest := latest_row (now_of w) a verdict c) in *.
    assert (Hnew : answered_by me latest = true
                   /\ judged_correct me latest = verdict
                   /\ judged_failed me latest = negb verdict).
    { unfold judged_correct, judged_failed, answered_by. subst latest.
      unfold latest_row.
      cbn [Puzzle.player Puzzle.response Puzzle.is_correct Puzzle.set_attempts
           Puzzle.set_response_timestamp Puzzle.set_is_correct Puzzle.set_response].
      rewrite Hmine, Nat.eqb_refl. destruct verdict; repeat split; reflexivity. }
    destruct Hnew as (Ha' & Hc' & Hf').
    pose proof (count_insert (answered_by me) _ _ _ latest Hrow) as Ct.
    pose proof (count_insert (judged_correct me) _ _ _ latest Hrow) as Cc.
    pose proof (count_insert (judged_failed me) _ _ _ latest Hrow) as Cf.
    assert (Hold : answered_by me c = negb (bool_decide (Puzzle.response c = None))
                   /\ judged_correct me c
                      = negb (bool_decide (Puzzle.response c = None))
                        && bool_decide (Puzzle.is_correct c = Some true)
                   /\ judged_failed me c
                      = negb (bool_decide (Puzzle.response c = None))
                        && negb (bool_decide (Puzzle.is_correct c = Some true))).
    { unfold judged_correct, judged_failed, answered_by.
      rewrite Hmine, Nat.eqb_refl. repeat split; reflexivity. }
    destruct Hold as (Ha & Hc0 & Hf0).
    rewrite Ha, Ha' in Ct. rewrite Hc0, Hc' in Cc. rewrite Hf0, Hf' in Cf.
    clear Ha Hc0 Hf0.
    assert (Hid : Player.id (World.player w') = me).
    { rewrite Hp. unfold judged, undone.
      repeat (destruct (bool_decide _) || destruct verdict); reflexivity. }
    unfold counts_latest in *. rewrite Hid, Hz. destruct Hw as (Ht & Hc & Hf).
    rewrite Hp. clear Hp Hz Hid Ha' Hc' Hf'. clearbody latest.
    unfold judged, undone.
    destruct (bool_decide (Puzzle.response c = None)),
      (bool_decide (Puzzle.is_correct c = Some true)), verdict;
      cbn in Ct, Cc, Cf |- *; subst me; repeat split; lia.
Qed.

(** X13. As long as no message of a conversation is refused, the progress
    counters count each answered puzzle of the player once, under the verdict
    on its latest answer: [num_trials] is the number of answered puzzles, and
    [num_correct] and [num_failed] split it by the latest verdict. *)
Theorem served_runs_count_latest (messages : list Message.t) (w : World.t) :
  counts_latest w ->
  forallb served (fst (handle_all messages w)) = true ->
  counts_latest (snd (handle_all messages w)).
Proof.
  revert w. induction messages as [|m messages IH]; intros w Hw Hall; [exact Hw|].
  cbn [run] in *. pose proof (step_counts_latest m w) as Hstep.
  destruct (handle m w) as [out w1]. specialize (IH w1).
  destruct (handle_all messages w1) as [outs w2]. cbn [fst snd forallb] in *.
  apply andb_true_iff in Hall as [Hout Houts]. auto.
Qed.

Lemma step_within_limit m w :
  Forall (within_limit params) (World.puzzles w) ->
  Forall (within_limit params) (World.puzzles (snd (handle m w))) /\
  (1 <= Params.attempts_per_puzzle params -> retries_in_range params (fst (handle m w))).
Proof.
  destruct (handle m w) as [out w'] eqn:Hrun. cbn [fst snd]. intros Hw.
  destruct (play_game_cases _ _ _ _ Hrun)
    as [(_ & Hout & _ & Hz) | [(Hout & _ & Hstep) | [[_ Hstep] |
        [Hout Hstep%refused_retry_bogus]]]].
  - rewrite Hz. split; [exact Hw|]. intros _.
    destruct out as [e|[my [| | |]]]; cbn; auto; discriminate.
  - destruct Hstep as (z & Hz & _ & _ & _ & Hatt & Hresp & _). rewrite Hz. split.
    + apply Forall_app. split; [exact Hw|]. constructor; [|constructor].
      unfold within_limit. rewrite Hatt. split; [lia | auto].
    + intros _. destruct out as [e|[my [| | |]]]; cbn; auto; discriminate.
  - destruct Hstep as (i & c & a & Hcur & _ & Hkind & Hrest). cbv zeta in Hrest.
    destruct Hrest as (-> & _ & Hz).
    destruct (current_row _ _ _ Hcur) as (Hrow & _).
    pose proof (proj1 (Forall_lookup _ _) Hw i c Hrow) as [Hrange Hnone].
    assert (Hnext : 0 <= Puzzle.attempts c + 1 <= Z.max 1 (Params.attempts_per_puzzle params)
                    /\ (1 <= Params.attempts_per_puzzle params ->
                        Puzzle.attempts c + 1 <= Params.attempts_per_puzzle params)).
    { destruct Hkind as [Hfirst | (_ & Hleft & _)]; [rewrite (Hnone Hfirst)|]; lia. }
    rewrite Hz. split.
    + apply Forall_insert; [exact Hw|]. unfold within_limit, latest_row.
      cbn [Puzzle.attempts Puzzle.response Puzzle.set_attempts
           Puzzle.set_response_timestamp Puzzle.set_is_correct Puzzle.set_response].
      split; [tauto | discriminate].
    + intros Hlimit. cbn. destruct Hnext as [_ Hle]. specialize (Hle Hlimit). lia.
  - destruct Hstep as (_ & _ & _ & _ & _ & _ & Hz). rewrite Hz. split; [exact Hw|].
    intros _. destruct out; [exact I | discriminate].
Qed.

(** X14. No row is ever answered more often than the limit allows.  If
    every row of the store has at most [max(1, attempts_per_puzzle)]
    attempts, and none without a response has any, the same holds after any
    conversation; and when the limit is at least 1, every feedback message
    announces between 0 and [attempts_per_puzzle - 1] retries. *)
Theorem attempts_within_limit (messages : list Message.t) (w : World.t) :
  Forall (within_limit params) (World.puzzles w) ->
  Forall (within_limit params) (World.puzzles (snd (handle_all messages w))) /\
  (1 <= Params.attempts_per_puzzle params ->
   Forall (retries_in_range params) (fst (handle_all messages w))).
Proof.
  revert w. induction messages as [|m messages IH]; intros w Hw.
  - cbn. split; [exact Hw | constructor].
  - cbn [run]. destruct (step_within_limit m w Hw) as [Hw1 Hout].
    destruct (handle m w) as [out w1]. cbn [fst snd] in *.
    destruct (IH w1 Hw1) as [Hw2 Houts].
    destruct (handle_all messages w1) as [outs w2]. cbn [fst snd] in *.
    split; [exact Hw2|]. intros Hlimit. constructor; auto.
Qed.

Lemma step_keeps_settled_rows m w :
  Player.id (World.player (snd (handle m w))) = Player.id (World.player w) /\
  Player.iteration (World.player w) <= Player.iteration (World.player (snd (handle m w))) /\
  (length (World.puzzles w) <= length (World.puzzles (snd (handle m w))))%nat /\
  forall j z,
    World.puzzles w !! j = Some z -> settled_row w z ->
    World.puzzles (snd (handle m w)) !! j = Some z.
Proof.
  destruct (handle m w) as [out w'] eqn:Hrun. cbn [fst snd].
  destruct (play_game_cases _ _ _ _ Hrun)
    as [(_ & _ & Hp & Hz) | [(_ & _ & Hstep) | [[_ Hstep] |
        [_ Hstep%refused_retry_bogus]]]].
  - rewrite Hp, Hz. repeat split; auto; lia.
  - destruct Hstep as (z & Hz & Hp & _). rewrite Hp, Hz.
    cbn [Player.id Player.iteration Player.set_iteration].
    rewrite length_app. cbn [length]. repeat split; try lia.
    intros j z' Hj _. apply lookup_app_l_Some. exact Hj.
  - destruct Hstep as (i & c & a & Hcur & _ & _ & Hrest). cbv zeta in Hrest.
    destruct Hrest as (_ & Hp & Hz).
    destruct (current_row _ _ _ Hcur) as (Hrow & Hmine & Hit).
    assert (Hsame : forall v p,
               Player.id (judged v p) = Player.id p
               /\ Player.iteration (judged v p) = Player.iteration p).
    { intros [] p; split; reflexivity. }
    rewrite Hp, Hz, length_insert.
    set (before := if bool_decide (Puzzle.response c = None)
                   then World.player w else undone c (World.player w)) in *.
    assert (Hbefore : Player.id before = Player.id (World.player w)
                      /\ Player.iteration before = Player.iteration (World.player w)).
    { subst before. unfold undone.
      destruct (bool_decide (Puzzle.response c = None)); [split; reflexivity|].
      destruct (bool_decide _); split; reflexivity. }
    destruct (Hsame (is_correct a (Puzzle.set_response a c)) before) as [Hj1 Hj2].
    rewrite Hj1, Hj2. destruct Hbefore as [-> ->].
    split; [reflexivity|]. split; [lia|]. split; [lia|].
    intros j z Hj Hsettled. destruct (decide (i = j)) as [<- | Hne].
    + assert (z = c) by congruence. subst z.
      destruct Hsettled as [Hother | Hearlier]; [congruence | lia].
    + rewrite list_lookup_insert_ne by exact Hne. exact Hj.
  - destruct Hstep as (i & c & _ & _ & _ & Hp & Hz). rewrite Hp, Hz.
    unfold undone. destruct (bool_decide _); cbn; repeat split; auto; lia.
Qed.

(** X17. The store only grows, and a conversation with one player writes to
    that player's current row only: every row of another player, and every
    row of the player at an earlier iteration, is after the conversation what
    it was before. *)
Theorem settled_rows_untouched (messages : list Message.t) (w : World.t) :
  (length (World.puzzles w) <= length (World.puzzles (snd (handle_all messages w))))%nat /\
  forall j z,
    World.puzzles w !! j = Some z -> settled_row w z ->
    World.puzzles (snd (handle_all messages w)) !! j = Some z.
Proof.
  assert (Hall : forall messages w,
             Player.id (World.player (snd (handle_all messages w)))
             = Player.id (World.player w) /\
             Player.iteration (World.player w)
             <= Player.iteration (World.player (snd (handle_all messages w))) /\
             (length (World.puzzles w)
              <= length (World.puzzles (snd (handle_all messages w))))%nat /\
             forall j z,
               World.puzzles w !! j = Some z -> settled_row w z ->
               World.puzzles (snd (handle_all messages w)) !! j = Some z).
  { clear messages w. intros messages.
    induction messages as [|m messages IH]; intros w.
    - cbn. repeat split; auto; lia.
    - cbn [run]. destruct (step_keeps_settled_rows m w) as (Hid & Hit & Hlen & Hrows).
      destruct (handle m w) as [out w1]. cbn [fst snd] in *.
      destruct (IH w1) as (Hid' & Hit' & Hlen' & Hrows').
      destruct (handle_all messages w1) as [outs w2]. cbn [fst snd] in *.
      split; [congruence|]. split; [lia|]. split; [lia|].
      intros j z Hj Hsettled. apply Hrows'; [apply Hrows; auto|].
      unfold settled_row in *. rewrite Hid. destruct Hsettled; [left | right]; auto; lia. }
  destruct (Hall messages w) as (_ & _ & Hlen & Hrows). split; assumption.
Qed.

Lemma length_one {A} (l : list A) : length l = 1%nat -> exists a, l = [a].
Proof. destruct l as [|a [|b l]]; try discriminate. eauto. Qed.

Lemma step_under_cap n m w :
  Params.max_iterations params = Some n ->
  1 <= n ->
  under_cap n w -> under_cap n (snd (handle m w)).
Proof.
  intros Hcap Hn (Hwell & Hrange & Hcurrent).
  destruct (handle m w) as [out w'] eqn:Hrun. cbn [fst snd].
  assert (Hsame : same_numbering w w' -> under_cap n w').
  { intros Hsame.
    split; [exact (same_numbering_well_numbered _ _ Hsame Hwell)|].
    pose proof (same_numbering_copies w w' (Player.iteration (World.player w)) Hsame)
      as Hcopies.
    destruct Hsame as (Hid & Hit & _). rewrite Hit. split; [exact Hrange|].
    intros Hnz. destruct (Hcurrent Hnz) as [z Hz].
    apply length_one. change (copies w' (Player.iteration (World.player w')) = 1%nat).
    rewrite Hit, Hcopies. unfold copies. fold (current_of w). now rewrite Hz. }
  destruct (play_game_cases _ _ _ _ Hrun)
    as [(_ & _ & Hquiet) | [(_ & Hallowed & Hstep) | [[_ Hstep] |
        [_ Hstep%refused_retry_bogus]]]].
  - exact (Hsame (quiet_same_numbering _ _ Hquiet)).
  - pose proof (issue_step_one_issued _ _ Hstep) as Hone.
    split; [exact (one_issued_well_numbered _ _ Hone Hwell)|].
    destruct Hstep as (z & Hz & Hp & Hmine & Hit & _).
    assert (Hnew : Player.iteration (World.player w')
                   = Player.iteration (World.player w) + 1) by now rewrite Hp.
    split.
    + rewrite Hnew. destruct Hallowed as [Hidle | (i & c & Hcur & _ & _ & Hfree)].
      * destruct (Z.eq_dec (Player.iteration (World.player w)) 0) as [-> | Hnz]; [lia|].
        destruct (Hcurrent Hnz) as [z0 Hz0]. congruence.
      * destruct (current_row _ _ _ Hcur) as (_ & _ & Hitc).
        rewrite Hcap, Hitc in Hfree. assert (Player.iteration (World.player w) <> n)
          by congruence. lia.
    + intros _. apply length_one.
      change (copies w' (Player.iteration (World.player w')) = 1%nat).
      rewrite copies_count, Hz, Hp, count_app.
      cbn [Player.id Player.iteration Player.set_iteration count].
      rewrite <- copies_count.
      rewrite (proj2 (Hwell (Player.iteration (World.player w) + 1))) by lia.
      unfold Puzzle.matches. rewrite Hmine, Hit, Nat.eqb_refl, Z.eqb_refl. reflexivity.
  - exact (Hsame (answer_step_same_numbering _ _ _ Hstep)).
  - exact (Hsame (bogus_retry_same_numbering _ _ Hstep)).
Qed.

(** X15. With a cap of [n] puzzles, [n] at least 1, a player who starts
    with nothing issued is never issued more than [n]: after any conversation
    the iteration counter is at most [n]. *)
Theorem cap_never_exceeded (n : Z) (messages : list Message.t) (w : World.t) :
  Params.max_iterations params = Some n ->
  1 <= n ->
  Player.iteration (World.player w) = 0 ->
  Forall (fun z => Puzzle.player z <> Player.id (World.player w)) (World.puzzles w) ->
  0 <= Player.iteration (World.player (snd (handle_all messages w))) <= n.
Proof.
  intros Hcap Hn Hzero Hnone.
  assert (Hstart : under_cap n w).
  { split; [apply fresh_well_numbered; [lia | exact Hnone]|].
    split; [lia|]. intros Hnz. congruence. }
  pose proof (run_invariant (under_cap n)
                (fun m w0 H => step_under_cap n m w0 Hcap Hn H) messages w Hstart)
    as (_ & Hrange & _).
  exact Hrange.
Qed.

End LiveCases.

(** *** The properties of the live protocol on concrete conversations *)

Lemma load_only_reads_witness :
  exists w',
    run (task_module := sample_task) (fun image => image) false Params.defaults
      [load_message; load_message] answered_world
    = ([inr (1%nat, status (progress_of (World.player answered_world)) (Some "abc") None);
        inr (1%nat, status (progress_of (World.player answered_world)) (Some "abc") None)],
       w') /\
    quiet answered_world w'.
Proof.
  apply (load_only_reads (task_module := sample_task) (fun image => image) false
           Params.defaults [load_message; load_message] answered_world);
    [vm_compute; lia | repeat constructor].
Defined.

Lemma cheat_needs_debug_witness :
  sample_game cheat_message issued_world
  = (inl (RuntimeError "unrecognized message from client"), ticked issued_world).
Proof.
  destruct (cheat_needs_debug (task_module := sample_task) (fun image => image) false
              Params.defaults cheat_message issued_world) as [Hoff _];
    [vm_compute; lia | discriminate | discriminate | discriminate |].
  apply Hoff. left. reflexivity.
Defined.

Lemma next_at_cap_witness :
  play_game (task_module := sample_task) (fun image => image) false cap_one_params
    next_message answered_world
  = (inr (1%nat, status (progress_of (World.player answered_world)) None (Some 0)),
     ticked answered_world).
Proof.
  apply (next_at_cap (task_module := sample_task) (fun image => image) false
           cap_one_params answered_world 0%nat answered_puzzle);
    [reflexivity | discriminate | unfold Qle; simpl; lia | reflexivity].
Defined.

Lemma first_answer_accepted_witness :
  exists w',
    sample_game (answer_message (JString "abc")) issued_world
    = (inr (1%nat,
            feedback true 0 (progress_of (judged true (World.player issued_world)))), w') /\
    World.player w' = judged true (World.player issued_world).
Proof.
  destruct (first_answer_accepted (task_module := sample_task) (fun image => image) false
              Params.defaults issued_world 0%nat issued_puzzle "abc")
    as (w' & Hrun & Hplayer & _); [reflexivity | reflexivity | discriminate |].
  exists w'. split; [exact Hrun | exact Hplayer].
Defined.



Lemma served_runs_count_latest_witness :
  counts_latest
    (snd (run (task_module := sample_task) (fun image => image) false retry_params
            served_messages fresh_world)).
Proof.
  apply (served_runs_count_latest (task_module := sample_task) (fun image => image) false
           retry_params served_messages fresh_world);
    [repeat split; reflexivity | reflexivity].
Defined.

Lemma attempts_within_limit_witness :
  Forall (within_limit retry_params)
    (World.puzzles
       (snd (run (task_module := sample_task) (fun image => image) false retry_params
               example_messages fresh_world))).
Proof.
  apply (attempts_within_limit (task_module := sample_task) (fun image => image) false
           retry_params example_messages fresh_world).
  repeat constructor; [vm_compute; discriminate | vm_compute; discriminate | discriminate].
Defined.

Lemma cap_never_exceeded_witness :
  0 <= Player.iteration
         (World.player
            (snd (run (task_module := sample_task) (fun image => image) false capped_params
                    example_messages fresh_world))) <= 5.
Proof.
  apply (cap_never_exceeded (task_module := sample_task) (fun image => image) false
           capped_params 5 example_messages fresh_world);
    [reflexivity | lia | reflexivity | repeat constructor; discriminate].
Defined.

Lemma settled_rows_untouched_witness :
  World.puzzles
    (snd (run (task_module := sample_task) (fun image => image) false retry_params
            example_messages fresh_world)) !! 0%nat
  = Some answered_puzzle.
Proof.
  destruct (settled_rows_untouched (task_module := sample_task) (fun image => image) false
              retry_params example_messages fresh_world) as [_ Hrows].
  apply Hrows; [reflexivity | left; discriminate].
Defined.
